(** * godns: resolver configuration, the Funkensturm proxy and the xfrprx handler

    A shallow embedding of the Go sources

      - [resolver/config.go]                 ([Resolver.FromFile]),
      - [_examples/funkensturm/funkensturm.go] and [config.go]
                                             ([doFunkensturm], [reply], the shipped
                                              configuration),
      - the xfrprx example                   ([zone], [Zone], [handle]),

    followed by the properties established about them.  Go values are
    modelled as the code has them: [int] as [Z], [string] as a byte string,
    [[]string] as a window on a backing array with a length and a capacity,
    a [*dns.Msg] as an optional message ([None] is [nil]), and a run-time
    panic as an explicit outcome. *)

From Stdlib Require Import ZArith String Ascii Lia.
From stdpp Require Import base numbers list strings.

Open Scope Z_scope.

(* ===================================================================== *)
(** * Part I.  The embedding                                              *)
(* ===================================================================== *)

(** ** The Go run time: panics, strings, slices *)

Module Go.

(** The outcome of a piece of Go code: it returns a value or it panics. *)
Inductive result (A : Type) : Type :=
| Ok (a : A)
| Panic (why : string).
Arguments Ok {A} a.
Arguments Panic {A} why.

#[export] Instance result_ret : MRet result := fun A a => Ok a.
#[export] Instance result_bind : MBind result := fun A B k m =>
  match m with
  | Ok a => k a
  | Panic why => Panic why
  end.

Definition index_panic : string := "index out of range".
Definition slice_panic : string := "slice bounds out of range".
Definition make_panic : string := "makeslice: len out of range".
Definition nil_panic : string := "invalid memory address or nil pointer dereference".

(** [a && b] evaluates [b] only when [a] holds. *)
Definition and_then (a : bool) (b : result bool) : result bool :=
  if a then b else Ok false.

(** [len(s)] of a string, in bytes. *)
Definition len_string (s : string) : Z := Z.of_nat (String.length s).

(** [s[lo:hi]] of a string: panics unless [0 <= lo <= hi <= len(s)]. *)
Definition substr (s : string) (lo hi : Z) : result string :=
  if (0 <=? lo) && (lo <=? hi) && (hi <=? len_string s)
  then Ok (String.substring (Z.to_nat lo) (Z.to_nat (hi - lo)) s)
  else Panic slice_panic.

(** [len(f)] and [f[i]] of a slice that is only read, kept as the list of
    its elements. *)
Definition len {A} (f : list A) : Z := Z.of_nat (length f).

Definition index {A} (f : list A) (i : Z) : result A :=
  if (0 <=? i) && (i <? len f)
  then match f !! Z.to_nat i with
       | Some x => Ok x
       | None => Panic index_panic
       end
  else Panic index_panic.

(** A slice that is written: the backing array from the slice's first
    element on ([cap] is its length) and the slice's own length. *)
Record slice (A : Type) : Type := mkSlice { arr : list A; slen : Z }.
Arguments mkSlice {A} arr slen.
Arguments arr {A} s.
Arguments slen {A} s.

Definition cap {A} (a : slice A) : Z := Z.of_nat (length (arr a)).

(** The elements a slice holds, in order. *)
Definition elems {A} (a : slice A) : list A := take (Z.to_nat (slen a)) (arr a).

(** [make([]T, n)]: [n] zero values, capacity [n]. *)
Definition make {A} (zero : A) (n : Z) : result (slice A) :=
  if n <? 0 then Panic make_panic
  else Ok (mkSlice (replicate (Z.to_nat n) zero) n).

(** [a[lo:hi]]: the upper bound may reach the capacity. *)
Definition reslice {A} (a : slice A) (lo hi : Z) : result (slice A) :=
  if (0 <=? lo) && (lo <=? hi) && (hi <=? cap a)
  then Ok (mkSlice (drop (Z.to_nat lo) (arr a)) (hi - lo))
  else Panic slice_panic.

(** [a[i] = v]: the index must be below the length. *)
Definition store {A} (a : slice A) (i : Z) (v : A) : result (slice A) :=
  if (0 <=? i) && (i <? slen a)
  then Ok (mkSlice (<[Z.to_nat i := v]> (arr a)) (slen a))
  else Panic index_panic.

(** A loop body run once per element of [xs], in order, stopping at the
    first panic. *)
Fixpoint for_each {S X} (body : S -> X -> result S) (s : S) (xs : list X) : result S :=
  match xs with
  | [] => Ok s
  | x :: xs' => s' ← body s x; for_each body s' xs'
  end.

End Go.
Import Go.

(** ** resolver/config.go *)

Module Resolver.

(** The fields of [Resolver] that [FromFile] assigns. *)
Record Resolver : Type := mkResolver {
  Servers : slice string;
  Search : slice string;
  Ndots : Z;
  Timeout : Z;
  Attempts : Z;
  Rotate : bool
}.

Definition set_Servers (r : Resolver) (v : slice string) : Resolver :=
  mkResolver v (Search r) (Ndots r) (Timeout r) (Attempts r) (Rotate r).
Definition set_Search (r : Resolver) (v : slice string) : Resolver :=
  mkResolver (Servers r) v (Ndots r) (Timeout r) (Attempts r) (Rotate r).
Definition set_Ndots (r : Resolver) (v : Z) : Resolver :=
  mkResolver (Servers r) (Search r) v (Timeout r) (Attempts r) (Rotate r).
Definition set_Timeout (r : Resolver) (v : Z) : Resolver :=
  mkResolver (Servers r) (Search r) (Ndots r) v (Attempts r) (Rotate r).
Definition set_Attempts (r : Resolver) (v : Z) : Resolver :=
  mkResolver (Servers r) (Search r) (Ndots r) (Timeout r) v (Rotate r).
Definition set_Rotate (r : Resolver) (v : bool) : Resolver :=
  mkResolver (Servers r) (Search r) (Ndots r) (Timeout r) (Attempts r) v.

(** What [FromFile] calls and config.go does not define: the package's file
    and parsing helpers and [net.ParseIP].  A file is the list of its
    lines, which [readLine] hands out one by one; [open] fails with an
    [os.Error]; [ParseIP] returns [nil] (no bytes) for a text that is no
    address. *)
Class Helpers : Type := {
  open : string -> list string + string;
  getFields : string -> list string;
  dtoi : string -> Z -> Z * Z * bool;
  ParseIP : string -> list Byte.byte
}.

Section FromFile.
Context {H : Helpers}.

(** The [case "nameserver"] body, lines 33-49. *)
Definition nameserver (r : Resolver) (f : list string) : result Resolver :=
  let a := Servers r in
  let n := slen a in
  if (1 <? len f) && (n <? cap a) then
    name ← index f 1;
    let l := len (ParseIP name) in
    if l =? 16 then
      (* case 16: bracket the name, then fall through to case 4 *)
      let name := "[" +:+ name +:+ "]" in
      a ← reslice a 0 (n + 1);
      a ← store a n name;
      Ok (set_Servers r a)
    else if l =? 4 then
      a ← reslice a 0 (n + 1);
      a ← store a n name;
      Ok (set_Servers r a)
    else Ok r
  else Ok r.

(** The [case "domain"] body, lines 52-57. *)
Definition domain (r : Resolver) (f : list string) : result Resolver :=
  if 1 <? len f then
    s ← make "" 1;
    let r := set_Search r s in
    x ← index f 1;
    s ← store (Search r) 0 x;
    Ok (set_Search r s)
  else
    s ← make "" 0;
    Ok (set_Search r s).

(** The [case "search"] body, lines 60-63: one store per index below
    [len(r.Search)], which the stores leave as it is. *)
Definition search (r : Resolver) (f : list string) : result Resolver :=
  s ← make "" (len f - 1);
  let r := set_Search r s in
  for_each (fun r i =>
              x ← index f (i + 1);
              s ← store (Search r) i x;
              Ok (set_Search r s))
           r (seqZ 0 (slen (Search r))).

(** One token of an [options] line: the [switch] of lines 68-89, its cases
    tried in order, each guard evaluated left to right. *)
Definition option_token (r : Resolver) (s : string) : result Resolver :=
  c ← and_then (6 <=? len_string s) (p ← substr s 0 6; Ok (String.eqb p "ndots:"));
  if c : bool then
    let '(n, _, _) := dtoi s 6 in
    let n := if n <? 1 then 1 else n in
    Ok (set_Ndots r n)
  else
  c ← and_then (8 <=? len_string s) (p ← substr s 0 8; Ok (String.eqb p "timeout:"));
  if c : bool then
    let '(n, _, _) := dtoi s 8 in
    let n := if n <? 1 then 1 else n in
    Ok (set_Timeout r n)
  else
  c ← and_then (8 <=? len_string s) (p ← substr s 0 9; Ok (String.eqb p "attempts:"));
  if c : bool then
    let '(n, _, _) := dtoi s 9 in
    let n := if n <? 1 then 1 else n in
    Ok (set_Attempts r n)
  else
  if String.eqb s "rotate" then Ok (set_Rotate r true)
  else Ok r.

(** The [case "options"] body, lines 66-90: the tokens [f[1]], [f[2]], ... *)
Definition options (r : Resolver) (f : list string) : result Resolver :=
  for_each (fun r i => s ← index f i; option_token r s) r (seqZ 1 (len f - 1)).

(** The loop body, lines 27-91, for one line of the file. *)
Definition directive (r : Resolver) (line : string) : result Resolver :=
  let f := getFields line in
  if len f <? 1 then Ok r
  else
    f0 ← index f 0;
    if String.eqb f0 "nameserver" then nameserver r f
    else if String.eqb f0 "domain" then domain r f
    else if String.eqb f0 "search" then search r f
    else if String.eqb f0 "options" then options r f
    else Ok r.

(** [FromFile]: the resolver as it is left, and the error returned. *)
Definition FromFile (r : Resolver) (conf : string) : result (Resolver * option string) :=
  match open conf with
  | inr err => Ok (r, Some err)
  | inl file =>
      s ← make "" 3;
      s ← reslice s 0 0;
      let r := set_Servers r s in
      s ← make "" 0;
      let r := set_Search r s in
      let r := set_Ndots r 1 in
      let r := set_Timeout r 5 in
      let r := set_Attempts r 2 in
      let r := set_Rotate r false in
      r ← for_each directive r file;
      Ok (r, None)
  end.

(** What a [nameserver] token adds to the server list, read off the token
    alone: the token when it parses as an address, in square brackets when
    the address has sixteen bytes; nothing when it does not parse. *)
Definition server_entry (name : string) : option string :=
  if len (ParseIP name) =? 16 then Some ("[" +:+ name +:+ "]")
  else if len (ParseIP name) =? 4 then Some name
  else None.

(** The same for a line: only a [nameserver] line with a token adds. *)
Definition server_of_line (line : string) : option string :=
  match getFields line with
  | f0 :: name :: _ => if String.eqb f0 "nameserver" then server_entry name else None
  | _ => None
  end.

(** An [options] directive line. *)
Definition is_options (line : string) : bool :=
  match getFields line with
  | f0 :: _ => String.eqb f0 "options"
  | [] => false
  end.

End FromFile.

(** The list [r.Servers] holds. *)
Definition servers (r : Resolver) : list string := elems (Servers r).

(** [r.Servers] with one more name, as lines 45-47 leave it. *)
Definition add_server (r : Resolver) (name : string) : Resolver :=
  let a := Servers r in
  set_Servers r (mkSlice (<[Z.to_nat (slen a) := name]> (arr a)) (slen a + 1)).

(** The length of [r.Servers] is within its capacity. *)
Definition servers_fit (r : Resolver) : Prop :=
  0 <= slen (Servers r) <= cap (Servers r).

(** Two resolvers with the same integer options and [Rotate]. *)
Definition same_options (r r' : Resolver) : Prop :=
  Ndots r' = Ndots r /\ Timeout r' = Timeout r /\
  Attempts r' = Attempts r /\ Rotate r' = Rotate r.

End Resolver.

(** ** The dns package as the sources use it *)

Module Dns.

(** [Msg.MsgHdr], with the fields server_test.go sets. *)
Record MsgHdr : Type := mkMsgHdr {
  Id : Z;
  Response : bool;
  Opcode : Z;
  Authoritative : bool;
  RecursionAvailable : bool;
  AuthenticatedData : bool;
  Rcode : Z
}.

(** [Question{Name, Qtype, Qclass}]. *)
Record Question : Type := mkQuestion { Qname : string; Qtype : Z; Qclass : Z }.

(** [RR_Header{Name, Rrtype, Class, Ttl}]. *)
Record RR_Header : Type := mkRR_Header { Name : string; Rrtype : Z; Class_ : Z; Ttl : Z }.

(** [dns.RR]: the text record as server_test.go builds it.  The record
    types themselves (types.go) are not among the sources: the
    start-of-authority record is kept by the serial the spec's glossary
    gives it ("a zone's version number, carried in its SOA record"), any
    other record by its header and raw data. *)
Inductive RR : Type :=
| RR_TXT (Hdr : RR_Header) (Txt : string)
| RR_SOA (Hdr : RR_Header) (Serial : Z)
| RR_other (Hdr : RR_Header) (Rdata : list Byte.byte).

(** [dns.Msg]: the embedded header, the questions and the record sections. *)
Record Msg : Type := mkMsg {
  hdr : MsgHdr;
  Questions : list Question;
  Answer : list RR;
  Ns : list RR;
  Extra : list RR
}.

Definition OpcodeQuery : Z := 0.
Definition OpcodeNotify : Z := 4.

End Dns.
Import Dns.

(** ** _examples/funkensturm/funkensturm.go *)

Module Funkensturm.

Definition IN : Z := 0.
Definition OUT : Z := 1.
Definition OR : Z := 2.
Definition AND : Z := 3.

(** [Match]: [Func] takes the world it may act on (the globals [qr], [in],
    [out] and whatever else a stage reaches), the packet and the direction. *)
Module Match.
Record t (W : Type) : Type := mk {
  Op : Z;
  Func : W -> option Msg -> Z -> W * option Msg * bool
}.
Arguments mk {W} Op Func.
Arguments Op {W} _.
Arguments Func {W} _.
End Match.

Module Action.
Record t (W : Type) : Type := mk {
  Func : W -> option Msg -> bool -> W * option Msg
}.
Arguments mk {W} Func.
Arguments Func {W} _.
End Action.

Record Funkensturm (W : Type) : Type := mkFunkensturm {
  Setup : W -> W * bool;
  Matches : list (Match.t W);
  Actions : list (Action.t W)
}.
Arguments mkFunkensturm {W} Setup Matches Actions.
Arguments Setup {W} _.
Arguments Matches {W} _.
Arguments Actions {W} _.

(** What a run does, in order: what it prints, what it writes to the
    connection, and the calls it makes to the configured stage functions
    (a [Match.Func] call with direction, packet given, packet and verdict
    returned; an [Action.Func] call with packet and verdict given, packet
    returned). *)
Inductive event : Type :=
| Stdout (text : string)
| StdoutMsg (i : option Msg)
| Stderr (text : string)
| Write (out : list Byte.byte)
| CallMatch (d : Z) (pkt : option Msg) (pkt' : option Msg) (ok1 : bool)
| CallAction (pkt : option Msg) (ok : bool) (res : option Msg).

Definition nl : string := String (ascii_of_nat 10) EmptyString.

Definition verboseprint (i : option Msg) (msg : string) : list event :=
  [ Stdout (">>>>>> " +:+ msg +:+ nl);
    StdoutMsg i;
    Stdout ("<<<<<< " +:+ msg +:+ nl +:+ nl) ].

Definition error_response : string := "Response bit set, not replying".
Definition error_pack : string := "Packing packet failed".
Definition rule : string := "-----------------------------------" +:+ nl +:+ nl.

Section Proxy.
Context {W : Type}.
(** [Pack] of a message: the bytes and whether packing worked. *)
Variable Pack : Msg -> option (list Byte.byte) * bool.
(** The globals [verbose] and [f]. *)
Variable verbose : bool.
Variable f : Funkensturm W.

Definition when_verbose (log : list event) : list event :=
  if verbose then log else [].

(** Lines 92-102: the [IN] pass over [f.Matches], from [ok] and [pkt1]. *)
Fixpoint match_in (ms : list (Match.t W)) (w : W) (pkt1 : option Msg) (ok : bool)
  : W * option Msg * bool * list event :=
  match ms with
  | [] => (w, pkt1, ok, [])
  | m :: ms' =>
      let '(w', pkt1', ok1) := Match.Func m w pkt1 IN in
      let ok' :=
        if Match.Op m =? AND then ok && ok1
        else if Match.Op m =? OR then ok || ok1
        else ok in
      let '(w'', pkt1'', ok'', log) := match_in ms' w' pkt1' ok' in
      (w'', pkt1'', ok'', CallMatch IN pkt1 pkt1' ok1 :: log)
  end.

(** Lines 110-113: every action gets [pkt1] and [ok]; the last result stays. *)
Fixpoint actions (acts : list (Action.t W)) (w : W) (pkt1 : option Msg) (ok : bool)
    (resultpkt : option Msg) : W * option Msg * list event :=
  match acts with
  | [] => (w, resultpkt, [])
  | a :: acts' =>
      let '(w', res) := Action.Func a w pkt1 ok in
      let '(w'', resultpkt', log) := actions acts' w' pkt1 ok res in
      (w'', resultpkt', CallAction pkt1 ok res :: log)
  end.

(** Lines 123-126: the [OUT] pass, the verdicts dropped. *)
Fixpoint match_out (ms : list (Match.t W)) (w : W) (pkt1 : option Msg)
  : W * option Msg * list event :=
  match ms with
  | [] => (w, pkt1, [])
  | m :: ms' =>
      let '(w', pkt1', ok1) := Match.Func m w pkt1 OUT in
      let '(w'', pkt1'', log) := match_out ms' w' pkt1' in
      (w'', pkt1'', CallMatch OUT pkt1 pkt1' ok1 :: log)
  end.

(** Lines 92-126: the three passes, from the incoming packet to the
    packet to send back. *)
Definition passes (w : W) (pkt : option Msg) : W * option Msg * list event :=
  let '(w1, pkt1, ok, log1) := match_in (Matches f) w pkt true in
  let log2 := when_verbose (verboseprint pkt1 "MODIFIED INCOMING") in
  let '(w2, resultpkt, log3) := actions (Actions f) w1 pkt1 ok None in
  let log4 := when_verbose (verboseprint resultpkt "ORIGINAL OUTGOING") in
  let '(w3, pkt2, log5) := match_out (Matches f) w2 resultpkt in
  (w3, pkt2, log1 ++ log2 ++ log3 ++ log4 ++ log5).

(** [doFunkensturm]: the world and the trace it leaves, and the pair
    [([]byte, os.Error)] it returns. *)
Definition doFunkensturm (w : W) (pkt : option Msg)
  : result (W * list event * (option (list Byte.byte) * option string)) :=
  let log0 := when_verbose (verboseprint pkt "ORIGINAL INCOMING") in
  match pkt with
  | None => Panic nil_panic
  | Some p =>
      if Response (hdr p) then Ok (w, log0, (None, Some error_response))
      else
        let '(w3, pkt2, log) := passes w pkt in
        match pkt2 with
        | None => Ok (w3, log0 ++ log, (None, None))
        | Some p2 =>
            let log6 :=
              when_verbose (verboseprint pkt2 "MODIFIED OUTGOING" ++ [Stdout rule]) in
            let '(out, ok1) := Pack p2 in
            if negb ok1 then Ok (w3, log0 ++ log ++ log6, (None, Some error_pack))
            else Ok (w3, log0 ++ log ++ log6, (out, None))
        end
  end.

(** [reply]: what is written to [c] is a [Write] of the trace. *)
Definition reply (w : W) (i : option Msg) : result (W * list event) :=
  '(w', log, (out, err)) ← doFunkensturm w i;
  match err with
  | Some e => Ok (w', log ++ [Stderr ("Error: " +:+ e +:+ nl)])
  | None =>
      match out with
      | Some bytes => Ok (w', log ++ [Write bytes])
      | None => Ok (w', log)
      end
  end.

End Proxy.

(** *** Reading a trace *)

(** The packets written to the connection. *)
Definition writes (log : list event) : list (list Byte.byte) :=
  omap (fun e => match e with Write out => Some out | _ => None end) log.

(** The [Match.Func] calls of the [IN] pass: packet given, packet and
    result returned. *)
Definition in_calls (log : list event) : list (option Msg * option Msg * bool) :=
  omap (fun e => match e with
                 | CallMatch d pkt pkt' ok1 => if d =? IN then Some (pkt, pkt', ok1) else None
                 | _ => None
                 end) log.

(** The [Action.Func] calls: packet and verdict given, packet returned. *)
Definition action_calls (log : list event) : list (option Msg * bool * option Msg) :=
  omap (fun e => match e with
                 | CallAction pkt ok res => Some (pkt, ok, res)
                 | _ => None
                 end) log.

(** The calls to stage functions. *)
Definition is_call (e : event) : bool :=
  match e with
  | CallMatch _ _ _ _ | CallAction _ _ _ => true
  | _ => false
  end.

Definition calls (log : list event) : list event :=
  filter (fun e => is_call e = true) log.

(** A trace that holds prints only: no call, nothing written. *)
Definition prints_only (log : list event) : Prop :=
  in_calls log = [] /\ action_calls log = [] /\ writes log = [] /\ calls log = [].

(** *** The verdict as the configuration comment states it

    "incoming dns.Msg -> Match[0] -> dns.Msg -> Match[1] -> dns.Msg -> ...";
    "true Match[0].Op Match[0].Func() Match[1].Op Match[1].Func() ...". *)

(** One stage of the chain: its operator, the packet it is given, the
    packet and the result it returns. *)
Record link : Type := mkLink {
  operator : Z;
  given : option Msg;
  returned : option Msg;
  result_of : bool
}.

(** The stages as a chain: each stage is given the packet the stage before
    returned, the first the incoming one. *)
Fixpoint chain {W : Type} (ms : list (Match.t W)) (w : W) (pkt : option Msg) : list link :=
  match ms with
  | [] => []
  | m :: ms' =>
      let '(w', pkt', ok1) := Match.Func m w pkt IN in
      mkLink (Match.Op m) pkt pkt' ok1 :: chain ms' w' pkt'
  end.

(** The call a stage of the chain shows up as in a trace. *)
Definition call_of (l : link) : option Msg * option Msg * bool :=
  (given l, returned l, result_of l).

(** A list of calls in which the first is given [pkt] and each next one
    the packet the one before returned. *)
Fixpoint linked (pkt : option Msg) (cs : list (option Msg * option Msg * bool)) : Prop :=
  match cs with
  | [] => True
  | (pkt0, pkt', _) :: cs' => pkt0 = pkt /\ linked pkt' cs'
  end.

(** One operator applied: [AND] is conjunction, [OR] disjunction; a stage
    that declares neither leaves the verdict as it is. *)
Definition combine (ok : bool) (op : Z) (ok1 : bool) : bool :=
  if op =? AND then ok && ok1
  else if op =? OR then ok || ok1
  else ok.

(** The fold from [true], left to right. *)
Definition verdict (c : list link) : bool :=
  fold_left (fun ok l => combine ok (operator l) (result_of l)) c true.

(** config.go: [match] passes the packet on and answers [true]. *)
Definition config_match {W : Type} (w : W) (m : option Msg) (d : Z) : W * option Msg * bool :=
  (w, m, true).

End Funkensturm.

(** ** The xfrprx example: the zone store and the handler *)

Module Xfrprx.

(** The bound of [rrs [10000]dns.RR]. *)
Definition capacity : Z := 10000.

(** [type zone struct]: the array holds 10000 entries at all times, [nil]
    ([None]) where nothing is stored. *)
Record zone : Type := mkZone {
  name : string;
  rrs : list (option RR);
  size : Z;
  correct : bool
}.

(** [var Zone zone]: the zero value. *)
Definition Zone0 : zone := mkZone "" (replicate (Z.to_nat capacity) None) 0 false.

Definition set_correct (z : zone) (b : bool) : zone :=
  mkZone (name z) (rrs z) (size z) b.

(** The process as [handle] sees it: the global [Zone], what it has printed,
    and the rest (the connection [d], the network behind it), of a type [N]
    left open. *)
Record state (N : Type) : Type := mkState {
  Zone : zone;
  printed : list string;
  net : N
}.
Arguments mkState {N} Zone printed net.
Arguments Zone {N} _.
Arguments printed {N} _.
Arguments net {N} _.

Definition set_Zone {N} (st : state N) (z : zone) : state N :=
  mkState z (printed st) (net st).

(** [fmt.Printf("err %v\n", err)] *)
Definition print_err {N} (st : state N) (err : option string) : state N :=
  match err with
  | Some e => mkState (Zone st) (printed st ++ ["err " +:+ e +:+ Funkensturm.nl]) (net st)
  | None => st
  end.

Section Handle.
Context {N : Type}.
(** [handleNotify] and [handleXfrOut] are defined in other files of the
    example; each may change the process and returns an [os.Error]. *)
Variable handleNotify : state N -> option Msg -> state N * option string.
Variable handleXfrOut : state N -> option Msg -> state N * option string.

(** [handle], lines 31-46. *)
Definition handle (st : state N) (i : option Msg) : result (state N) :=
  match i with
  | None => Panic nil_panic
  | Some m =>
      if Response (hdr m) then Ok st
      else
        let '(st1, err) := handleNotify st i in
        let st1 := print_err st1 err in
        let '(st2, err) := handleXfrOut st1 i in
        let st2 := print_err st2 err in
        if negb (String.eqb (name (Zone st2)) "")
        then Ok (set_Zone st2 (set_correct (Zone st2) false))
        else Ok st2
  end.

End Handle.

End Xfrprx.
Import Xfrprx.

(** ** The transfer engine *)

Module Transfer.

(** Modelled from the spec: the causes of an aborted transfer (section 4.3,
    "connection error, malformed stream, verification failure,
    fixed-capacity buffer overflow", and the timeout of section 5).  The
    transfer code (xfr.go, [handleNotify]) is not among the sources. *)
Inductive failure : Type :=
| ConnectionError
| MalformedStream
| VerificationFailure
| BufferOverflow
| TimedOut.

(** Modelled from the spec: the states of one transfer, section 4.3,
    [Idle -> NotifyReceived -> TransferRequested -> Streaming ->
    (Verifying -> Committed) | Aborted].  [Streaming] and [Verifying] carry
    the scratch buffer, a [zone] of its own; [Aborted] carries the failure
    reported upward. *)
Inductive phase : Type :=
| Idle
| NotifyReceived (apex : string) (serial : Z)
| TransferRequested (apex : string) (serial : Z)
| Streaming (scratch : zone) (serial : Z)
| Verifying (scratch : zone)
| Committed
| Aborted (why : failure).

(** Modelled from the spec: what reaches the engine: a NOTIFY, the outcome
    of opening the TCP connection, the records of the response stream in
    send order, a message that does not decode, a dropped connection, a
    timeout, and the Authentication Layer's answer. *)
Inductive input : Type :=
| Notify (apex : string) (serial : Z)
| Connected
| ConnectFailed
| Record_ (rr : RR)
| Garbled
| Dropped
| Timeout_
| Verdict (ok : bool).

(** Modelled from the spec: the engine of section 4.3 over the code's
    [zone]: the live Zone Store and where the transfer stands. *)
Record engine : Type := mkEngine { live : zone; at_ : phase }.

(** The records a zone holds: the first [size] entries of its array. *)
Definition records (z : zone) : list RR :=
  omap id (take (Z.to_nat (size z)) (rrs z)).

Definition soa_serial (rr : RR) : option Z :=
  match rr with
  | RR_SOA _ s => Some s
  | _ => None
  end.

(** The serial a zone is held at: that of its first SOA record. *)
Definition held_serial (z : zone) : option Z :=
  head (omap soa_serial (records z)).

(** Modelled from the spec: "if not newer, the notify is acknowledged but
    no transfer starts". *)
Definition newer (serial : Z) (z : zone) : bool :=
  match held_serial z with
  | Some s => s <? serial
  | None => true
  end.

(** Modelled from the spec: one more record into a fixed-capacity buffer:
    [None] when the buffer is full ("must abort cleanly (report overflow)
    rather than overrun"). *)
Definition append (z : zone) (rr : RR) : option zone :=
  if size z <? capacity
  then Some (mkZone (name z) (<[Z.to_nat (size z) := Some rr]> (rrs z)) (size z + 1) (correct z))
  else None.

Definition empty_scratch (apex : string) : zone :=
  mkZone apex (replicate (Z.to_nat capacity) None) 0 false.

(** Modelled from the spec: "the terminating SOA record of the new
    serial". *)
Definition terminates (rr : RR) (serial : Z) : bool :=
  match soa_serial rr with
  | Some s => s =? serial
  | None => false
  end.

Definition abort (e : engine) (why : failure) : engine :=
  mkEngine (live e) (Aborted why).

Definition goto (e : engine) (p : phase) : engine := mkEngine (live e) p.

(** Modelled from the spec: the transitions of section 4.3.  Records go to
    the scratch buffer, never to the live store; the live store is written
    in one place, on [Verifying -> Committed], where the scratch buffer
    replaces it with [correct] set.  An input a state has no transition for
    is ignored (a second NOTIFY during a transfer is coalesced). *)
Definition step (e : engine) (i : input) : engine :=
  match at_ e, i with
  | Idle, Notify apex serial =>
      if newer serial (live e) then goto e (NotifyReceived apex serial) else e
  | NotifyReceived apex serial, Connected => goto e (TransferRequested apex serial)
  | NotifyReceived _ _, ConnectFailed => abort e ConnectionError
  | NotifyReceived _ _, Dropped => abort e ConnectionError
  | NotifyReceived _ _, Timeout_ => abort e TimedOut
  | TransferRequested apex serial, Record_ rr =>
      match append (empty_scratch apex) rr with
      | Some scratch => goto e (Streaming scratch serial)
      | None => abort e BufferOverflow
      end
  | TransferRequested _ _, Garbled => abort e MalformedStream
  | TransferRequested _ _, Dropped => abort e ConnectionError
  | TransferRequested _ _, Timeout_ => abort e TimedOut
  | Streaming scratch serial, Record_ rr =>
      if terminates rr serial then goto e (Verifying scratch)
      else match append scratch rr with
           | Some scratch' => goto e (Streaming scratch' serial)
           | None => abort e BufferOverflow
           end
  | Streaming _ _, Garbled => abort e MalformedStream
  | Streaming _ _, Dropped => abort e ConnectionError
  | Streaming _ _, Timeout_ => abort e TimedOut
  | Verifying scratch, Verdict true => mkEngine (set_correct scratch true) Committed
  | Verifying _, Verdict false => abort e VerificationFailure
  | _, _ => e
  end.

(** Modelled from the spec: a transfer attempt, the inputs taken in the
    order they arrive. *)
Definition run (e : engine) (ins : list input) : engine := fold_left step ins e.

(** A transfer in flight: past [Idle], not yet [Committed] or [Aborted]. *)
Definition in_flight (p : phase) : bool :=
  match p with
  | NotifyReceived _ _ | TransferRequested _ _ | Streaming _ _ | Verifying _ => true
  | _ => false
  end.

(** A zone within its bound: the array has its 10000 entries and [size]
    counts some of them. *)
Definition bounded (z : zone) : Prop :=
  length (rrs z) = Z.to_nat capacity /\ 0 <= size z <= capacity.

Definition scratch_of (p : phase) : option zone :=
  match p with
  | Streaming scratch _ | Verifying scratch => Some scratch
  | _ => None
  end.

(** The phases in which the engine waits on the connection, and those in
    which it reads the response stream. *)
Definition on_the_wire (p : phase) : bool :=
  match p with
  | NotifyReceived _ _ | TransferRequested _ _ | Streaming _ _ => true
  | _ => false
  end.

Definition reading (p : phase) : bool :=
  match p with
  | TransferRequested _ _ | Streaming _ _ => true
  | _ => false
  end.

Definition engine_bounded (e : engine) : Prop :=
  bounded (live e) /\ forall z, scratch_of (at_ e) = Some z -> bounded z.

End Transfer.

(** ** Concrete surroundings for the closed examples

    The properties below hold for every choice of the helpers, stage
    functions and handlers the sources leave open.  The examples run the
    code on concrete inputs, for which they need one such choice. *)

Module Sample.

Import Resolver Funkensturm Transfer.

(** *** A resolver environment *)

Definition is_blank (c : ascii) : bool :=
  (Ascii.eqb c " " || Ascii.eqb c "009" || Ascii.eqb c "010" || Ascii.eqb c "013")%char.

(** Fields of a line, split at blanks, tabs, returns and newlines. *)
Fixpoint fields_from (s : string) (tok : string) : list string :=
  match s with
  | EmptyString => if String.eqb tok "" then [] else [tok]
  | String c s' =>
      if is_blank c
      then (if String.eqb tok "" then fields_from s' "" else tok :: fields_from s' "")
      else fields_from s' (tok +:+ String c EmptyString)
  end.

Definition fields (line : string) : list string := fields_from line "".

Definition digit (c : ascii) : option Z :=
  let n := Z.of_nat (nat_of_ascii c) in
  if (48 <=? n) && (n <=? 57) then Some (n - 48) else None.

(** Decimal digits from a position on: the number, the position after it,
    and whether there was a digit and the number stayed small. *)
Fixpoint digits (s : string) (n : Z) (i : Z) (seen : bool) : Z * Z * bool :=
  match s with
  | EmptyString => if seen then (n, i, true) else (0, i, false)
  | String c s' =>
      match digit c with
      | Some d =>
          let n' := n * 10 + d in
          if 16777215 <=? n' then (0, i, false) else digits s' n' (i + 1) true
      | None => if seen then (n, i, true) else (0, i, false)
      end
  end.

Definition decimal (s : string) (i0 : Z) : Z * Z * bool :=
  digits (String.substring (Z.to_nat i0) (String.length s) s) 0 i0 false.

(** An address parser that knows a few texts: sixteen bytes for the
    IPv6 ones, four for the dotted quad, none for anything else. *)
Definition known_ip (s : string) : list Byte.byte :=
  if String.eqb s "::1" then replicate 15 Byte.x00 ++ [Byte.x01]
  else if String.eqb s "2001:db8::53"
  then [Byte.x20; Byte.x01; Byte.x0d; Byte.xb8] ++ replicate 11 Byte.x00 ++ [Byte.x53]
  else if String.eqb s "192.0.2.1" then [Byte.xc0; Byte.x00; Byte.x02; Byte.x01]
  else [].

(** The helpers over a file system with one file. *)
Definition helpers (path : string) (content : list string) : Helpers :=
  {| open := fun conf => if String.eqb conf path then inl content else inr "no such file";
     getFields := fields;
     dtoi := decimal;
     ParseIP := known_ip |}.

Definition resolver0 : Resolver :=
  mkResolver (mkSlice [] 0) (mkSlice [] 0) 0 0 0 false.

Definition resolv_conf : list string :=
  [ "# name servers";
    "nameserver ::1";
    "nameserver ns.example.com";
    "nameserver 192.0.2.1";
    "";
    "nameserver 2001:db8::53";
    "nameserver ::1";
    "search example.com example.net";
    "domain example.org" ].

Definition attempts_conf : list string :=
  [ "nameserver ::1";
    "options attempts" ].

Definition etc : string := "/etc/resolv.conf".

(** What [FromFile] leaves of [resolv_conf]. *)
Definition resolved : Resolver :=
  mkResolver (mkSlice ["[::1]"; "192.0.2.1"; "[2001:db8::53]"] 3)
             (mkSlice ["example.org"] 1) 1 5 2 false.

(** *** A proxy configuration *)

Definition query (id : Z) : Msg :=
  mkMsg (mkMsgHdr id false OpcodeQuery false false false 0)
        [mkQuestion "miek.nl." 16 1] [] [] [].

Definition response (id : Z) : Msg :=
  mkMsg (mkMsgHdr id true OpcodeQuery true true false 0)
        [mkQuestion "miek.nl." 16 1]
        [RR_TXT (mkRR_Header "miek.nl." 16 1 3600) "Dit is iets anders TCP"] [] [].

(** An action that answers with the packet it is given, and counts. *)
Definition echo (w : nat) (m : option Msg) (ok : bool) : nat * option Msg := (S w, m).

(** A stage that answers [false] on the way in. *)
Definition refuse (w : nat) (m : option Msg) (d : Z) : nat * option Msg * bool :=
  (w, m, negb (d =? IN)).

Definition proxy : Funkensturm nat :=
  mkFunkensturm (fun w => (w, true))
    [Match.mk AND config_match; Match.mk OR refuse; Match.mk AND refuse]
    [Action.mk echo].

(** A packer that takes no message, and one that takes every message. *)
Definition pack_fails (m : Msg) : option (list Byte.byte) * bool := (None, false).
Definition pack_id (m : Msg) : option (list Byte.byte) * bool :=
  (Some [Byte.x00; Byte.x01], true).

(** *** A notify handler on the transfer engine *)

(** The zone and serial a NOTIFY announces. *)
Definition announced (m : Msg) : option (string * Z) :=
  if Opcode (hdr m) =? OpcodeNotify then
    q ← head (Questions m);
    s ← head (omap soa_serial (Answer m));
    Some (Qname q, s)
  else None.

Definition failure_text (why : failure) : string :=
  match why with
  | ConnectionError => "connection error"
  | MalformedStream => "malformed stream"
  | VerificationFailure => "verification failure"
  | BufferOverflow => "buffer overflow"
  | TimedOut => "timeout"
  end.

(** Modelled from the spec: [handleNotify] as the transfer engine of
    section 4.3 run on the NOTIFY and on what the network then delivers
    (the rest of the process, here the inputs still to come); [handleNotify]
    itself is not among the sources. *)
Definition handleNotify_engine (st : state (list input)) (i : option Msg)
  : state (list input) * option string :=
  match i ≫= announced with
  | None => (st, None)
  | Some (apex, serial) =>
      let e := run (mkEngine (Zone st) Idle) (Notify apex serial :: net st) in
      (mkState (live e) (printed st) [],
       match at_ e with
       | Aborted why => Some (failure_text why)
       | _ => None
       end)
  end.

Definition handleXfrOut_none (st : state (list input)) (i : option Msg)
  : state (list input) * option string := (st, None).

Definition soa (serial : Z) : RR := RR_SOA (mkRR_Header "example.com." 6 1 3600) serial.
Definition txt (t : string) : RR := RR_TXT (mkRR_Header "example.com." 16 1 3600) t.

Definition notify (serial : Z) : Msg :=
  mkMsg (mkMsgHdr 7 false OpcodeNotify true false false 0)
        [mkQuestion "example.com." 6 1] [soa serial] [] [].

(** A complete, verified transfer of serial 5, and one cut short. *)
Definition good_stream : list input :=
  [Connected; Record_ (soa 5); Record_ (txt "v=5"); Record_ (soa 5); Verdict true].
Definition cut_stream : list input :=
  [Connected; Record_ (soa 5); Record_ (txt "v=5"); Dropped].

Definition process (ins : list input) : state (list input) := mkState Zone0 [] ins.

(** The zone the engine commits on [good_stream], and the process [handle]
    leaves behind on it. *)
Definition transferred : zone :=
  live (run (mkEngine Zone0 Idle) (Notify "example.com." 5 :: good_stream)).

Definition after_good : state (list input) :=
  mkState (set_correct transferred false) [] [].

End Sample.

(** ** Readings of a configuration file, for the properties of [FromFile] *)

Module Readings.

Import Resolver.

Section Lines.
Context {H : Helpers}.

(** The tokens of an [options] line: the fields after the first. *)
Definition option_tokens (line : string) : list string :=
  match getFields line with
  | f0 :: tokens => if String.eqb f0 "options" then tokens else []
  | [] => []
  end.

(** A token the [switch] of lines 68-89 takes without slicing past its end:
    any token that is not eight bytes long, and of the eight-byte ones
    those that start with [ndots:] and the token [timeout:]. *)
Definition sliceable (s : string) : bool :=
  negb (len_string s =? 8)
  || String.eqb (String.substring 0 6 s) "ndots:"
  || String.eqb s "timeout:".

(** The search list a line asks for: the first token of a [domain] line
    (none when it has no token), all the tokens of a [search] line. *)
Definition search_of_line (line : string) : option (list string) :=
  match getFields line with
  | f0 :: tokens =>
      if String.eqb f0 "domain" then Some (take 1 tokens)
      else if String.eqb f0 "search" then Some tokens
      else None
  | [] => None
  end.

(** Whether some [options] line of the file holds the token [rotate]. *)
Definition asks_rotate (file : list string) : bool :=
  existsb (fun line => existsb (String.eqb "rotate") (option_tokens line)) file.

End Lines.

(** The resolver the loop starts from, whatever was passed in. *)
Definition fresh : Resolver :=
  mkResolver (mkSlice [""; ""; ""] 0) (mkSlice [] 0) 1 5 2 false.

(** The options are at least one. *)
Definition options_positive (r : Resolver) : Prop :=
  1 <= Ndots r /\ 1 <= Timeout r /\ 1 <= Attempts r.

End Readings.

(** ** Readings of a proxy trace, and the shipped configuration *)

Module Traces.

Import Funkensturm.

(** The [Match.Func] calls of the [OUT] pass. *)
Definition out_calls (log : list event) : list (option Msg * option Msg * bool) :=
  omap (fun e => match e with
                 | CallMatch d pkt pkt' ok1 => if d =? OUT then Some (pkt, pkt', ok1) else None
                 | _ => None
                 end) log.

Definition is_print (e : event) : bool :=
  match e with
  | Stdout _ | StdoutMsg _ => true
  | _ => false
  end.

(** A trace without what [verboseprint] and the rule print. *)
Definition unprinted (log : list event) : list event :=
  filter (fun e => is_print e = false) log.

Definition is_in_call (e : event) : bool :=
  match e with
  | CallMatch d _ _ _ => d =? IN
  | _ => false
  end.

Definition is_out_call (e : event) : bool :=
  match e with
  | CallMatch d _ _ _ => d =? OUT
  | _ => false
  end.

Definition is_action_call (e : event) : bool :=
  match e with
  | CallAction _ _ _ => true
  | _ => false
  end.

(** The packet the [IN] pass hands on: the one its last stage returned, the
    incoming one when there is no stage. *)
Definition handed_on (c : list link) (pkt : option Msg) : option Msg :=
  default pkt (last (returned <$> c)).

(** The packet the actions leave: the one the last action returned, [nil]
    when there is no action. *)
Definition left_by (cs : list (option Msg * bool * option Msg)) : option Msg :=
  default None (last (snd <$> cs)).



End Traces.

(** ** The passes as applications of the stage functions *)

Module Applied.

Import Funkensturm.

Section Stage.
Context {W : Type}.

(** One pass over the stages in direction [d], as the applications of
    their functions: each [Func] applied to the world and the packet the
    stage before left, with the packet given, the packet and the result
    returned. *)
Fixpoint stage_applications (d : Z) (ms : list (Match.t W)) (w : W) (pkt : option Msg)
  : list (option Msg * option Msg * bool) :=
  match ms with
  | [] => []
  | m :: ms' =>
      let r := Match.Func m w pkt d in
      (pkt, r.1.2, r.2) :: stage_applications d ms' r.1.1 r.1.2
  end.

(** The world and the packet such a pass leaves. *)
Definition through (d : Z) (ms : list (Match.t W)) (w : W) (pkt : option Msg)
  : W * option Msg :=
  fold_left (fun st m => (Match.Func m st.1 st.2 d).1) ms (w, pkt).

(** The actions as the applications of their functions: each [Func]
    applied to the world the one before left and to one and the same packet
    and verdict, with the packet it returns. *)
Fixpoint action_applications (acts : list (Action.t W)) (w : W) (pkt1 : option Msg)
    (ok : bool) : list (option Msg * bool * option Msg) :=
  match acts with
  | [] => []
  | a :: acts' =>
      let r := Action.Func a w pkt1 ok in
      (pkt1, ok, r.2) :: action_applications acts' r.1 pkt1 ok
  end.

(** The world the actions leave, and the packet the last one returned
    ([nil] without an action). *)
Definition acted (acts : list (Action.t W)) (w : W) (pkt1 : option Msg) (ok : bool)
  : W * option Msg :=
  fold_left (fun st a => Action.Func a st.1 pkt1 ok) acts (w, None).

(** The three passes of a configuration in turn: the stages with [IN] from
    the incoming packet; the actions on what that leaves, under the verdict
    folded over the chain; the stages with [OUT] from what the actions
    leave. *)
Definition after_in (f : Funkensturm W) (w : W) (pkt : option Msg) : W * option Msg :=
  through IN (Matches f) w pkt.

Definition after_actions (f : Funkensturm W) (w : W) (pkt : option Msg) : W * option Msg :=
  acted (Actions f) (after_in f w pkt).1 (after_in f w pkt).2
        (verdict (chain (Matches f) w pkt)).

Definition after_out (f : Funkensturm W) (w : W) (pkt : option Msg) : W * option Msg :=
  through OUT (Matches f) (after_actions f w pkt).1 (after_actions f w pkt).2.

(** The applications [doFunkensturm] makes for a packet: of the stages
    with [IN], of the actions, of the stages with [OUT]. *)
Definition applied_in (f : Funkensturm W) (w : W) (pkt : option Msg)
  : list (option Msg * option Msg * bool) :=
  stage_applications IN (Matches f) w pkt.

Definition applied_actions (f : Funkensturm W) (w : W) (pkt : option Msg)
  : list (option Msg * bool * option Msg) :=
  action_applications (Actions f) (after_in f w pkt).1 (after_in f w pkt).2
                      (verdict (chain (Matches f) w pkt)).

Definition applied_out (f : Funkensturm W) (w : W) (pkt : option Msg)
  : list (option Msg * option Msg * bool) :=
  stage_applications OUT (Matches f) (after_actions f w pkt).1 (after_actions f w pkt).2.

End Stage.

(** Lines 128-143: what is returned for the packet the passes leave. *)
Definition returned_for (Pack : Msg -> option (list Byte.byte) * bool) (pkt2 : option Msg)
  : option (list Byte.byte) * option string :=
  match pkt2 with
  | None => (None, None)
  | Some p => if (Pack p).2 then ((Pack p).1, None) else (None, Some error_pack)
  end.

(** An application as the call it shows up as in a trace. *)
Definition match_event (d : Z) (c : option Msg * option Msg * bool) : event :=
  CallMatch d c.1.1 c.1.2 c.2.

Definition action_event (c : option Msg * bool * option Msg) : event :=
  CallAction c.1.1 c.1.2 c.2.

End Applied.

(** ** server_test.go *)

Module ServerTest.

(** The constants of the dns package the test names, at their protocol
    values. *)
Definition TypeTXT : Z := 16.
Definition ClassINET : Z := 1.
Definition RcodeSuccess : Z := 0.

(** [createpkg], lines 8-29. *)
Definition createpkg (id : Z) (tcp : bool) : Msg :=
  mkMsg (mkMsgHdr id true OpcodeQuery true true false RcodeSuccess)
        [mkQuestion "miek.nl." TypeTXT ClassINET]
        [RR_TXT (mkRR_Header "miek.nl." TypeTXT ClassINET 3600)
                (if tcp then "Dit is iets anders TCP" else "Dit is iets anders UDP")]
        [] [].

(** [handle], lines 31-37: the connection is the list of the messages
    written to it with [WriteMsg]. *)
Definition handle (c : list Msg) (i : option Msg) : result (list Msg) :=
  match i with
  | None => Panic nil_panic
  | Some m =>
      if Response (hdr m) then Ok c
      else
        let out := createpkg (Id (hdr m)) true in
        Ok (c ++ [out])
  end.

End ServerTest.

(** ** More concrete surroundings *)

Module Sample2.

Import Resolver Funkensturm.

Definition options_conf : list string :=
  [ "nameserver ::1";
    "search example.com example.net";
    "options ndots:0 rotate timeout:30";
    "options attempts:4 debug";
    "domain example.org" ].

(** What [FromFile] leaves of [options_conf]. *)
Definition configured : Resolver :=
  mkResolver (mkSlice ["[::1]"; ""; ""] 1) (mkSlice ["example.org"] 1) 1 30 4 true.

(** The trace [reply] leaves of a query through [Sample.proxy]. *)
Definition reply_log : list event :=
  match reply Sample.pack_id false Sample.proxy 0%nat (Some (Sample.query 3)) with
  | Ok (_, log) => log
  | Panic _ => []
  end.



End Sample2.

(* ===================================================================== *)
(** * Part II.  Properties                                                *)
(* ===================================================================== *)

(** ** The Go run time *)

Section GoFacts.
Context {A : Type}.
Implicit Types (f : list A) (a : slice A).

Lemma bind_Ok {B C : Type} (m : result B) (k : B -> result C) (c : C) :
  m ≫= k = Ok c -> exists b, m = Ok b /\ k b = Ok c.
Proof. destruct m as [b|why]; simpl; [eauto | discriminate]. Qed.

Lemma len_nonneg f : 0 <= len f.
Proof. unfold len. lia. Qed.

Lemma len_cons (x : A) f : len (x :: f) = 1 + len f.
Proof. unfold len. cbn [length]. lia. Qed.

Lemma index_in_range f i :
  0 <= i < len f -> exists x, index f i = Ok x /\ f !! Z.to_nat i = Some x.
Proof.
  intros Hi. unfold index.
  replace ((0 <=? i) && (i <? len f)) with true by (symmetry; apply andb_true_iff; lia).
  destruct (f !! Z.to_nat i) as [x|] eqn:Hx; [eauto |].
  apply lookup_ge_None in Hx. unfold len in Hi. lia.
Qed.

Lemma index_Ok_inv f i (x : A) :
  index f i = Ok x -> 0 <= i < len f /\ f !! Z.to_nat i = Some x.
Proof.
  unfold index. destruct ((0 <=? i) && (i <? len f)) eqn:Hc; [| discriminate].
  apply andb_true_iff in Hc. destruct (f !! Z.to_nat i); [| discriminate].
  intros [= ->]. split; [lia | reflexivity].
Qed.

Lemma make_fits (zero : A) n :
  0 <= n -> make zero n = Ok (mkSlice (replicate (Z.to_nat n) zero) n).
Proof. intros Hn. unfold make. destruct (Z.ltb_spec n 0); [lia | reflexivity]. Qed.

Lemma reslice_to a hi :
  0 <= hi <= cap a -> reslice a 0 hi = Ok (mkSlice (arr a) hi).
Proof.
  intros Hhi. unfold reslice.
  replace ((0 <=? 0) && (0 <=? hi) && (hi <=? cap a)) with true
    by (symmetry; rewrite !andb_true_iff; lia).
  rewrite Z.sub_0_r. reflexivity.
Qed.

Lemma store_in_range a i (v : A) :
  0 <= i < slen a -> store a i v = Ok (mkSlice (<[Z.to_nat i := v]> (arr a)) (slen a)).
Proof.
  intros Hi. unfold store.
  replace ((0 <=? i) && (i <? slen a)) with true by (symmetry; apply andb_true_iff; lia).
  reflexivity.
Qed.

Lemma elems_length a : 0 <= slen a <= cap a -> len (elems a) = slen a.
Proof. unfold len, elems, cap. intros Ha. rewrite length_take. lia. Qed.

(** Growing a slice by one within its capacity appends the stored value. *)
Lemma elems_grow a (v : A) :
  0 <= slen a < cap a ->
  elems (mkSlice (<[Z.to_nat (slen a) := v]> (arr a)) (slen a + 1)) = elems a ++ [v].
Proof.
  unfold elems, cap. cbn [arr slen]. intros Ha.
  replace (Z.to_nat (slen a + 1)) with (S (Z.to_nat (slen a))) by lia.
  rewrite (take_S_r _ _ v) by (apply list_lookup_insert_eq; lia).
  rewrite take_insert_ge by lia. reflexivity.
Qed.

(** A loop keeps what every round of its body keeps. *)
Lemma for_each_keeps {S X : Type} (P : S -> Prop) (body : S -> X -> result S)
    (xs : list X) (s s' : S) :
  (forall s x s', x ∈ xs -> P s -> body s x = Ok s' -> P s') ->
  P s -> for_each body s xs = Ok s' -> P s'.
Proof.
  revert s. induction xs as [|x xs IH]; intros s Hbody Hs; cbn [for_each].
  - intros [= <-]. exact Hs.
  - intros Hrun. apply bind_Ok in Hrun as (s1 & H1 & Hrest).
    apply (IH s1); [| | exact Hrest].
    + intros s0 y s0' Hy. apply Hbody. apply elem_of_cons. right. exact Hy.
    + apply (Hbody s x); [apply elem_of_cons; left; reflexivity | exact Hs | exact H1].
Qed.

(** A loop whose body returns on every round returns. *)
Lemma for_each_returns {S X : Type} (P : S -> Prop) (body : S -> X -> result S)
    (xs : list X) (s : S) :
  (forall s x, x ∈ xs -> P s -> exists s', body s x = Ok s' /\ P s') ->
  P s -> exists s', for_each body s xs = Ok s' /\ P s'.
Proof.
  revert s. induction xs as [|x xs IH]; intros s Hbody Hs; cbn [for_each].
  - eauto.
  - destruct (Hbody s x) as (s1 & H1 & Hs1); [apply elem_of_cons; left; reflexivity | exact Hs |].
    rewrite H1. cbn. apply IH; [| exact Hs1].
    intros s0 y Hy. apply Hbody. apply elem_of_cons. right. exact Hy.
Qed.

End GoFacts.

(** ** resolver/config.go *)

Section ResolverFacts.
Import Resolver.
Context {H : Helpers}.
Implicit Types (r : Resolver) (f : list string) (line name : string).

Lemma index_second {A : Type} (x y : A) (l : list A) : index (x :: y :: l) 1 = Ok y.
Proof.
  destruct (index_in_range (x :: y :: l) 1) as (z & Hz & Hl).
  - rewrite !len_cons. pose proof (len_nonneg l). lia.
  - rewrite Hz. change (Z.to_nat 1) with 1%nat in Hl. cbn in Hl. congruence.
Qed.

Lemma index_first {A : Type} (x : A) (l : list A) : index (x :: l) 0 = Ok x.
Proof.
  destruct (index_in_range (x :: l) 0) as (z & Hz & Hl).
  - rewrite len_cons. pose proof (len_nonneg l). lia.
  - rewrite Hz. change (Z.to_nat 0) with 0%nat in Hl. cbn in Hl. congruence.
Qed.

(** Lines 45-47 on a slice with room. *)
Lemma grow_and_store r name :
  0 <= slen (Servers r) < cap (Servers r) ->
  (a ← reslice (Servers r) 0 (slen (Servers r) + 1);
   a ← store a (slen (Servers r)) name;
   Ok (set_Servers r a)) = Ok (add_server r name).
Proof.
  intros Hr. rewrite reslice_to by lia. cbn.
  rewrite store_in_range by (cbn; lia). reflexivity.
Qed.

(** The [nameserver] case never panics; it adds the token's entry while
    there is room. *)
Lemma nameserver_eq r f :
  0 <= slen (Servers r) ->
  nameserver r f =
  Ok (match f with
      | _ :: name :: _ =>
          match server_entry name with
          | Some e => if slen (Servers r) <? cap (Servers r) then add_server r e else r
          | None => r
          end
      | _ => r
      end).
Proof.
  intros Hr. unfold nameserver. destruct f as [|f0 [|name f']]; [reflexivity | reflexivity |].
  replace (1 <? len (f0 :: name :: f')) with true
    by (symmetry; apply Z.ltb_lt; rewrite !len_cons; pose proof (len_nonneg f'); lia).
  destruct (Z.ltb_spec (slen (Servers r)) (cap (Servers r))) as [Hroom|Hfull]; cbn [andb].
  - rewrite index_second. cbn. unfold server_entry.
    destruct (len (ParseIP name) =? 16).
    + apply grow_and_store. lia.
    + destruct (len (ParseIP name) =? 4); [apply grow_and_store; lia | reflexivity].
  - destruct (server_entry name); reflexivity.
Qed.

(** The [domain] case never panics and assigns [Search] alone. *)
Lemma domain_eq r f : exists s, domain r f = Ok (set_Search r s).
Proof.
  unfold domain. destruct (Z.ltb_spec 1 (len f)) as [Hlen|Hlen].
  - destruct (index_in_range f 1) as (x & Hx & _); [lia |].
    cbn. rewrite Hx. cbn. eexists. reflexivity.
  - cbn. eexists. reflexivity.
Qed.

(** The [search] case, on a line with a first field, never panics and
    assigns [Search] alone. *)
Lemma search_eq r f : 1 <= len f -> exists s, search r f = Ok (set_Search r s).
Proof.
  intros Hlen. unfold search. rewrite make_fits by lia. cbn.
  set (s0 := mkSlice (replicate (Z.to_nat (len f - 1)) "") (len f - 1)).
  destruct (for_each_returns
              (fun r' => exists s, r' = set_Search r s /\ slen s = len f - 1)
              (fun r' i => x ← index f (i + 1); s ← store (Search r') i x; Ok (set_Search r' s))
              (seqZ 0 (len f - 1)) (set_Search r s0)) as (r' & Hrun & s & -> & _).
  - intros r' i Hi (s & -> & Hs). apply elem_of_seqZ in Hi.
    destruct (index_in_range f (i + 1)) as (x & Hx & _); [lia |].
    rewrite Hx. cbn. rewrite store_in_range by lia. cbn.
    eexists. split; [reflexivity |]. eexists. split; [reflexivity | exact Hs].
  - exists s0. split; reflexivity.
  - exists s. exact Hrun.
Qed.

(** An [options] token, where it is parsed, changes neither list. *)
Lemma option_token_lists r s r' :
  option_token r s = Ok r' -> Servers r' = Servers r /\ Search r' = Search r.
Proof.
  unfold option_token, and_then.
  repeat match goal with
         | |- context [substr ?x ?lo ?hi] => destruct (substr x lo hi); cbn
         | |- context [dtoi ?x ?i] => destruct (dtoi x i) as [[? ?] ?]; cbn
         | |- context [if ?b then _ else _] => destruct b; cbn
         end;
    first [discriminate | intros [= <-]; split; reflexivity].
Qed.

Lemma options_lists r f r' :
  options r f = Ok r' -> Servers r' = Servers r /\ Search r' = Search r.
Proof.
  unfold options.
  apply (for_each_keeps (fun r' => Servers r' = Servers r /\ Search r' = Search r));
    [| split; reflexivity].
  intros r1 i r2 _ [Hs Hq] Hbody. apply bind_Ok in Hbody as (s & _ & Htok).
  apply option_token_lists in Htok as [-> ->]. split; assumption.
Qed.

(** What a line does to [r.Servers], whenever the line is parsed. *)
Lemma directive_servers r line r' :
  servers_fit r -> directive r line = Ok r' ->
  Servers r' =
  Servers (match server_of_line line with
           | Some e => if slen (Servers r) <? cap (Servers r) then add_server r e else r
           | None => r
           end).
Proof.
  intros [Hr _]. unfold directive, server_of_line.
  destruct (getFields line) as [|f0 f'] eqn:Hf; [cbn; intros [= <-]; reflexivity |].
  replace (len (f0 :: f') <? 1) with false
    by (symmetry; apply Z.ltb_ge; rewrite len_cons; pose proof (len_nonneg f'); lia).
  rewrite index_first. cbn.
  destruct (String.eqb f0 "nameserver") eqn:Hns.
  - rewrite nameserver_eq by exact Hr. intros [= <-]. destruct f' as [|name f'']; reflexivity.
  - match goal with
    | |- _ -> _ = Servers ?X =>
        assert (HX : X = r) by (destruct f'; reflexivity); rewrite HX; clear HX
    end.
    destruct (String.eqb f0 "domain").
    { destruct (domain_eq r (f0 :: f')) as (s & ->). intros [= <-]. reflexivity. }
    destruct (String.eqb f0 "search").
    { destruct (search_eq r (f0 :: f')) as (s & ->).
      - rewrite len_cons. pose proof (len_nonneg f'). lia.
      - intros [= <-]. reflexivity. }
    destruct (String.eqb f0 "options").
    { intros Hopt. apply options_lists in Hopt as [Hs _]. exact Hs. }
    intros [= <-]. reflexivity.
Qed.

(** A line that is no [options] line is parsed, whatever it holds, and
    leaves the options alone. *)
Lemma directive_plain r line :
  servers_fit r -> is_options line = false ->
  exists r', directive r line = Ok r' /\ same_options r r'.
Proof.
  intros [Hr _]. unfold directive, is_options.
  destruct (getFields line) as [|f0 f'] eqn:Hf;
    [intros _; cbn; eexists; split; [reflexivity | repeat split] |].
  intros Hno.
  replace (len (f0 :: f') <? 1) with false
    by (symmetry; apply Z.ltb_ge; rewrite len_cons; pose proof (len_nonneg f'); lia).
  rewrite index_first. cbn. rewrite Hno.
  destruct (String.eqb f0 "nameserver").
  { rewrite nameserver_eq by exact Hr. eexists. split; [reflexivity |].
    destruct f' as [|name f'']; [repeat split |].
    destruct (server_entry name); [| repeat split].
    destruct (slen (Servers r) <? cap (Servers r)); repeat split. }
  destruct (String.eqb f0 "domain").
  { destruct (domain_eq r (f0 :: f')) as (s & ->). eexists. split; [reflexivity | repeat split]. }
  destruct (String.eqb f0 "search").
  { destruct (search_eq r (f0 :: f')) as (s & ->).
    - rewrite len_cons. pose proof (len_nonneg f'). lia.
    - eexists. split; [reflexivity | repeat split]. }
  eexists. split; [reflexivity | repeat split].
Qed.

Lemma add_server_fit r e :
  0 <= slen (Servers r) < cap (Servers r) ->
  servers_fit (add_server r e) /\
  cap (Servers (add_server r e)) = cap (Servers r) /\
  servers (add_server r e) = servers r ++ [e].
Proof.
  intros Hr. unfold servers_fit, servers, add_server, cap. cbn.
  rewrite length_insert. repeat split; [lia | unfold cap in Hr; lia |].
  apply elems_grow. exact Hr.
Qed.

(** One line more: the list stays the first three entries read so far. *)
Lemma directive_keeps_first_three r line r' (L : list string) :
  servers_fit r -> cap (Servers r) = 3 -> servers r = take 3 L ->
  directive r line = Ok r' ->
  servers_fit r' /\ cap (Servers r') = 3 /\
  servers r' = take 3 (L ++ option_list (server_of_line line)).
Proof.
  intros Hfit Hcap HL Hrun. pose proof (directive_servers r line r' Hfit Hrun) as HS.
  unfold servers_fit, servers in *. rewrite HS. clear HS Hrun.
  assert (Hlen : length (take 3 L) = Z.to_nat (slen (Servers r))).
  { rewrite <- HL. pose proof (elems_length (Servers r) Hfit) as He.
    unfold len in He. lia. }
  rewrite length_take in Hlen.
  destruct (server_of_line line) as [e|]; cbn [option_list].
  - destruct (Z.ltb_spec (slen (Servers r)) (cap (Servers r))) as [Hroom|Hfull].
    + destruct (add_server_fit r e) as (Hf & Hc & Hs); [lia |].
      unfold servers_fit, servers in Hf, Hs. rewrite Hs, HL.
      split; [exact Hf |]. split; [lia |].
      rewrite (take_ge L) by lia. rewrite take_ge; [reflexivity |].
      rewrite length_app. cbn. lia.
    + repeat split; [apply Hfit | apply Hfit | exact Hcap |].
      rewrite HL. rewrite take_app_le by lia. reflexivity.
  - rewrite app_nil_r. repeat split; [apply Hfit | apply Hfit | exact Hcap | exact HL].
Qed.

(** The whole file: the list is the first three entries of its lines. *)
Lemma read_keeps_first_three (file : list string) :
  forall r r' (L : list string),
    servers_fit r -> cap (Servers r) = 3 -> servers r = take 3 L ->
    for_each directive r file = Ok r' ->
    servers r' = take 3 (L ++ omap server_of_line file).
Proof.
  induction file as [|line file IH]; intros r r' L Hfit Hcap HL; cbn [for_each].
  - intros [= <-]. cbn. rewrite app_nil_r. exact HL.
  - intros Hrun. apply bind_Ok in Hrun as (r1 & H1 & Hrest).
    destruct (directive_keeps_first_three r line r1 L Hfit Hcap HL H1) as (Hfit1 & Hcap1 & HL1).
    rewrite (IH r1 r' _ Hfit1 Hcap1 HL1 Hrest). f_equal.
    rewrite <- app_assoc. f_equal. cbn. destruct (server_of_line line); reflexivity.
Qed.

(** A file without [options] lines is read to the end, its options left
    as they were. *)
Lemma read_plain (file : list string) r :
  Forall (fun line => is_options line = false) file ->
  servers_fit r -> cap (Servers r) = 3 ->
  exists r', for_each directive r file = Ok r' /\ same_options r r'.
Proof.
  intros Hfile Hfit Hcap.
  destruct (for_each_returns
              (fun r' => (servers_fit r' /\ cap (Servers r') = 3) /\ same_options r r')
              directive file r) as (r' & Hrun & _ & Hopts).
  - intros r1 line Hin [[Hfit1 Hcap1] Hopts1].
    rewrite Forall_forall in Hfile.
    destruct (directive_plain r1 line Hfit1 (Hfile line Hin)) as (r2 & H2 & Hopts2).
    exists r2. split; [exact H2 |]. split.
    + destruct (directive_keeps_first_three r1 line r2 (servers r1) Hfit1 Hcap1) as (Hf & Hc & _);
        [| exact H2 | split; assumption].
      symmetry. apply take_ge.
      pose proof (elems_length (Servers r1) Hfit1) as He.
      unfold servers_fit, servers, len in *. lia.
    + unfold same_options in *. intuition congruence.
  - split; [split; assumption | repeat split].
  - exists r'. split; assumption.
Qed.

(** The resolver [FromFile] starts the loop from. *)
Lemma FromFile_opened r conf file :
  open conf = inl file ->
  FromFile r conf =
  (r' ← for_each directive
          (mkResolver (mkSlice [""; ""; ""] 0) (mkSlice [] 0) 1 5 2 false) file;
   Ok (r', None)).
Proof. intros Hopen. unfold FromFile. rewrite Hopen. reflexivity. Qed.

(** An entry of the list comes from a [nameserver] line whose token parsed
    as an address: bracketed at sixteen bytes, plain at four. *)
Lemma server_of_line_inv line entry :
  server_of_line line = Some entry ->
  exists name rest,
    getFields line = "nameserver" :: name :: rest /\
    ((len (ParseIP name) = 16 /\ entry = "[" +:+ name +:+ "]") \/
     (len (ParseIP name) = 4 /\ entry = name)).
Proof.
  unfold server_of_line, server_entry.
  destruct (getFields line) as [|f0 [|name rest]]; [discriminate | discriminate |].
  destruct (String.eqb_spec f0 "nameserver") as [-> | _]; [| discriminate].
  destruct (Z.eqb_spec (len (ParseIP name)) 16) as [H16 | _].
  - intros [= <-]. exists name, rest. split; [reflexivity | left; split; [exact H16 | reflexivity]].
  - destruct (Z.eqb_spec (len (ParseIP name)) 4) as [H4 | _]; [| discriminate].
    intros [= <-]. exists name, rest. split; [reflexivity | right; split; [exact H4 | reflexivity]].
Qed.

(** C6.  A configuration file that opens and holds no [options] line is
    parsed to its end without error, and the resolver is left with the
    defaults [Ndots = 1], [Timeout = 5], [Attempts = 2], [Rotate = false]. *)
Theorem FromFile_defaults_without_options r conf (file : list string) :
  open conf = inl file ->
  Forall (fun line => is_options line = false) file ->
  exists r', FromFile r conf = Ok (r', None) /\
             Ndots r' = 1 /\ Timeout r' = 5 /\ Attempts r' = 2 /\ Rotate r' = false.
Proof.
  intros Hopen Hfile. rewrite (FromFile_opened r conf file Hopen).
  destruct (read_plain file (mkResolver (mkSlice [""; ""; ""] 0) (mkSlice [] 0) 1 5 2 false))
    as (r' & Hrun & Hn & Ht & Ha & Hr); [exact Hfile | | reflexivity |].
  - unfold servers_fit, cap. cbn. lia.
  - exists r'. rewrite Hrun. cbn in *. repeat split; assumption.
Qed.

(** C10.  After [FromFile] has returned without error, [r.Servers] is the
    first three of the entries the file's [nameserver] lines give, in the
    file's order: at most three entries, each the token of a [nameserver]
    line that parsed as an address (bracketed when the address has sixteen
    bytes), the valid lines after the third left out.  A [nameserver] line
    never makes the parser fail, and with the list full it changes
    nothing. *)
Theorem FromFile_servers_first_three r conf :
  (forall r', FromFile r conf = Ok (r', None) ->
     exists file,
       open conf = inl file /\
       servers r' = take 3 (omap server_of_line file) /\
       (length (servers r') <= 3)%nat /\
       Forall (fun entry =>
                 exists line name rest,
                   line ∈ file /\
                   getFields line = "nameserver" :: name :: rest /\
                   ((len (ParseIP name) = 16 /\ entry = "[" +:+ name +:+ "]") \/
                    (len (ParseIP name) = 4 /\ entry = name)))
              (servers r')) /\
  (forall r1 f, servers_fit r1 ->
     exists r2, nameserver r1 f = Ok r2 /\
                (cap (Servers r1) <= slen (Servers r1) -> r2 = r1)).
Proof.
  split.
  - intros r' Hrun.
    destruct (open conf) as [file|err] eqn:Hopen;
      [| unfold FromFile in Hrun; rewrite Hopen in Hrun; discriminate].
    exists file. split; [reflexivity |].
    rewrite (FromFile_opened r conf file Hopen) in Hrun.
    apply bind_Ok in Hrun as (r1 & Hread & [= ->]).
    assert (Hs : servers r' = take 3 (omap server_of_line file)).
    { apply (read_keeps_first_three file _ r' []) in Hread; [exact Hread | | reflexivity | reflexivity].
      unfold servers_fit, cap. cbn. lia. }
    split; [exact Hs |]. split.
    + rewrite Hs, length_take. lia.
    + rewrite Hs. apply Forall_forall. intros entry Hin.
      assert (Hin' : entry ∈ omap server_of_line file).
      { rewrite <- (take_drop 3 (omap server_of_line file)). apply elem_of_app. left. exact Hin. }
      apply list_elem_of_omap in Hin' as (line & Hline & Hentry).
      destruct (server_of_line_inv line entry Hentry) as (name & rest & Hf & Hcase).
      exists line, name, rest. repeat split; assumption.
  - intros r1 f [Hr1 _]. rewrite nameserver_eq by exact Hr1. eexists. split; [reflexivity |].
    intros Hfull. destruct f as [|f0 [|name f']]; [reflexivity | reflexivity |].
    destruct (server_entry name); [| reflexivity].
    destruct (Z.ltb_spec (slen (Servers r1)) (cap (Servers r1))); [lia | reflexivity].
Qed.

(** Any token of eight bytes that neither starts with [ndots:] nor is
    [timeout:] reaches the slice [s[0:9]] and panics there. *)
Lemma option_token_eight_bytes r s :
  len_string s = 8 ->
  String.substring 0 6 s <> "ndots:" -> s <> "timeout:" ->
  option_token r s = Panic slice_panic.
Proof.
  intros Hlen Hndots Htimeout. unfold option_token, and_then, substr.
  rewrite Hlen. cbn.
  change (Z.to_nat 0) with 0%nat. change (Z.to_nat (6 - 0)) with 6%nat.
  change (Z.to_nat (8 - 0)) with 8%nat.
  destruct (String.eqb_spec (String.substring 0 6 s) "ndots:") as [E|_]; [contradiction |].
  replace (String.substring 0 8 s) with s.
  - destruct (String.eqb_spec s "timeout:") as [E|_]; [contradiction | reflexivity].
  - unfold len_string in Hlen.
    assert (Hl : String.length s = 8%nat) by lia. clear - Hl.
    do 9 (destruct s as [|? s]; [discriminate Hl || reflexivity |]; cbn in Hl |- *;
          try discriminate Hl; f_equal).
Qed.

End ResolverFacts.

(** C9.  The [attempts:] case guards the slice [s[0:9]] with
    [len(s) >= 8]: the token [attempts], eight bytes long, passes the guard
    and the slice panics, whatever the helpers are; so does [FromFile] on a
    file that holds the line [options attempts]. *)
Theorem option_token_attempts_panics :
  (forall (H : Resolver.Helpers) (r : Resolver.Resolver),
     Resolver.option_token r "attempts" = Panic slice_panic) /\
  Resolver.FromFile (H := Sample.helpers Sample.etc Sample.attempts_conf)
    Sample.resolver0 Sample.etc = Panic slice_panic.
Proof.
  split.
  - intros H r. apply option_token_eight_bytes; [reflexivity | discriminate | discriminate].
  - vm_compute. reflexivity.
Qed.

(** The defaults on [Sample.resolv_conf], which has no [options] line. *)
Lemma FromFile_defaults_without_options_witness :
  Resolver.open (Helpers := Sample.helpers Sample.etc Sample.resolv_conf) Sample.etc
    = inl Sample.resolv_conf /\
  Forall (fun line =>
            Resolver.is_options (H := Sample.helpers Sample.etc Sample.resolv_conf) line = false)
         Sample.resolv_conf /\
  exists r',
    Resolver.FromFile (H := Sample.helpers Sample.etc Sample.resolv_conf)
      Sample.resolver0 Sample.etc = Ok (r', None) /\
    Resolver.Ndots r' = 1 /\ Resolver.Timeout r' = 5 /\
    Resolver.Attempts r' = 2 /\ Resolver.Rotate r' = false.
Proof.
  split; [reflexivity |]. split; [repeat constructor |].
  apply (@FromFile_defaults_without_options
           (Sample.helpers Sample.etc Sample.resolv_conf)
           Sample.resolver0 Sample.etc Sample.resolv_conf);
    [reflexivity | repeat constructor].
Defined.

(** The server list of [Sample.resolv_conf]: five [nameserver] lines, four
    of them with an address, the first three kept. *)
Lemma FromFile_servers_first_three_witness :
  Resolver.FromFile (H := Sample.helpers Sample.etc Sample.resolv_conf)
    Sample.resolver0 Sample.etc = Ok (Sample.resolved, None) /\
  exists file,
    Resolver.open (Helpers := Sample.helpers Sample.etc Sample.resolv_conf) Sample.etc
      = inl file /\
    Resolver.servers Sample.resolved
      = take 3 (omap (Resolver.server_of_line
                        (H := Sample.helpers Sample.etc Sample.resolv_conf)) file) /\
    (length (Resolver.servers Sample.resolved) <= 3)%nat /\
    Forall (fun entry =>
              exists line name rest,
                line ∈ file /\
                Sample.fields line = "nameserver" :: name :: rest /\
                ((len (Sample.known_ip name) = 16 /\ entry = "[" +:+ name +:+ "]") \/
                 (len (Sample.known_ip name) = 4 /\ entry = name)))
           (Resolver.servers Sample.resolved).
Proof.
  split; [vm_compute; reflexivity |].
  apply (proj1 (@FromFile_servers_first_three
                  (Sample.helpers Sample.etc Sample.resolv_conf)
                  Sample.resolver0 Sample.etc)).
  vm_compute. reflexivity.
Defined.

(** ** _examples/funkensturm/funkensturm.go *)

Section FunkensturmFacts.
Import Funkensturm.
Context {W : Type}.
Variable Pack : Msg -> option (list Byte.byte) * bool.
Variable verbose : bool.
Variable f : Funkensturm W.

Lemma when_verbose_prints (i : option Msg) (msg : string) (more : list event) :
  prints_only more -> prints_only (when_verbose verbose (verboseprint i msg ++ more)).
Proof.
  intros (H1 & H2 & H3 & H4). unfold when_verbose, prints_only.
  destruct verbose; cbn; [| repeat split].
  unfold in_calls, action_calls, writes, calls in *. cbn.
  rewrite ?H1, ?H2, ?H3. repeat split. exact H4.
Qed.

Lemma verboseprint_prints (i : option Msg) (msg : string) :
  prints_only (when_verbose verbose (verboseprint i msg)).
Proof.
  rewrite <- (app_nil_r (verboseprint i msg)). apply when_verbose_prints. repeat split.
Qed.

Lemma in_calls_app (l1 l2 : list event) : in_calls (l1 ++ l2) = in_calls l1 ++ in_calls l2.
Proof. apply omap_app. Qed.

Lemma action_calls_app (l1 l2 : list event) :
  action_calls (l1 ++ l2) = action_calls l1 ++ action_calls l2.
Proof. apply omap_app. Qed.

Lemma writes_app (l1 l2 : list event) : writes (l1 ++ l2) = writes l1 ++ writes l2.
Proof. apply omap_app. Qed.

Lemma calls_app (l1 l2 : list event) : calls (l1 ++ l2) = calls l1 ++ calls l2.
Proof. apply filter_app. Qed.

(** The [IN] pass calls the stages as the chain has them, and its verdict
    is the fold over the chain from the verdict it starts with. *)
Lemma match_in_chain (ms : list (Match.t W)) :
  forall (w : W) (pkt : option Msg) (ok : bool),
    in_calls (match_in ms w pkt ok).2
      = map call_of (chain ms w pkt) /\
    (match_in ms w pkt ok).1.2
      = fold_left (fun ok l => combine ok (operator l) (result_of l)) (chain ms w pkt) ok /\
    action_calls (match_in ms w pkt ok).2 = [] /\
    writes (match_in ms w pkt ok).2 = [].
Proof.
  induction ms as [|m ms IH]; intros w pkt ok; cbn [match_in chain].
  - repeat split.
  - destruct (Match.Func m w pkt IN) as [[w' pkt'] ok1].
    specialize (IH w' pkt' (combine ok (Match.Op m) ok1)). unfold combine in IH at 1 2 3 4.
    destruct (match_in ms w' pkt' _) as [[[w'' pkt''] ok''] log].
    destruct IH as (Hc & Hv & Ha & Hw). cbn in *.
    unfold in_calls, action_calls, writes in *. cbn.
    rewrite Hc, Hv, Ha, Hw. repeat split.
Qed.

(** Every action is called once, with the packet and the verdict the
    loop is entered with. *)
Lemma actions_calls (acts : list (Action.t W)) :
  forall (w : W) (pkt1 : option Msg) (ok : bool) (resultpkt : option Msg),
    Forall (fun c => c.1.1 = pkt1 /\ c.1.2 = ok) (action_calls (actions acts w pkt1 ok resultpkt).2) /\
    length (action_calls (actions acts w pkt1 ok resultpkt).2) = length acts /\
    in_calls (actions acts w pkt1 ok resultpkt).2 = [] /\
    writes (actions acts w pkt1 ok resultpkt).2 = [].
Proof.
  induction acts as [|a acts IH]; intros w pkt1 ok resultpkt; cbn [actions].
  - repeat split. constructor.
  - destruct (Action.Func a w pkt1 ok) as [w' res].
    specialize (IH w' pkt1 ok res).
    destruct (actions acts w' pkt1 ok res) as [[w'' resultpkt'] log].
    destruct IH as (Hall & Hlen & Hin & Hw). cbn in *.
    unfold in_calls, action_calls, writes in *. cbn.
    rewrite Hin, Hw, Hlen. repeat split. constructor; [split; reflexivity | exact Hall].
Qed.

(** The [OUT] pass calls no action and none of its calls is an [IN] call. *)
Lemma match_out_calls (ms : list (Match.t W)) :
  forall (w : W) (pkt1 : option Msg),
    in_calls (match_out ms w pkt1).2 = [] /\
    action_calls (match_out ms w pkt1).2 = [] /\
    writes (match_out ms w pkt1).2 = [].
Proof.
  induction ms as [|m ms IH]; intros w pkt1; cbn [match_out].
  - repeat split.
  - destruct (Match.Func m w pkt1 OUT) as [[w' pkt1'] ok1].
    specialize (IH w' pkt1'). destruct (match_out ms w' pkt1') as [[w'' pkt1''] log].
    destruct IH as (Hin & Ha & Hw). cbn in *.
    unfold in_calls, action_calls, writes in *. cbn.
    rewrite Hin, Ha, Hw. repeat split.
Qed.

Lemma chain_linked (ms : list (Match.t W)) :
  forall (w : W) (pkt : option Msg),
    linked pkt (map call_of (chain ms w pkt)).
Proof.
  induction ms as [|m ms IH]; intros w pkt; cbn [chain]; [exact I |].
  destruct (Match.Func m w pkt IN) as [[w' pkt'] ok1]. cbn. split; [reflexivity | apply IH].
Qed.

(** The three passes together. *)
Lemma passes_trace (w : W) (pkt : option Msg) :
  in_calls (passes verbose f w pkt).2
    = map call_of (chain (Matches f) w pkt) /\
  Forall (fun c => c.1.2 = verdict (chain (Matches f) w pkt))
         (action_calls (passes verbose f w pkt).2) /\
  length (action_calls (passes verbose f w pkt).2) = length (Actions f) /\
  writes (passes verbose f w pkt).2 = [].
Proof.
  unfold passes, verdict.
  pose proof (match_in_chain (Matches f) w pkt true) as (Hc & Hv & Ha & Hw).
  destruct (match_in (Matches f) w pkt true) as [[[w1 pkt1] ok] log1]. cbn [fst snd] in Hc, Hv, Ha, Hw.
  pose proof (actions_calls (Actions f) w1 pkt1 ok None) as (Hall & Hlen & Hin3 & Hw3).
  destruct (actions (Actions f) w1 pkt1 ok None) as [[w2 resultpkt] log3].
  cbn [fst snd] in Hall, Hlen, Hin3, Hw3.
  pose proof (match_out_calls (Matches f) w2 resultpkt) as (Hin5 & Ha5 & Hw5).
  destruct (match_out (Matches f) w2 resultpkt) as [[w3 pkt2] log5]. cbn [fst snd] in Hin5, Ha5, Hw5.
  destruct (verboseprint_prints pkt1 "MODIFIED INCOMING") as (Hin2 & Ha2 & Hw2 & _).
  destruct (verboseprint_prints resultpkt "ORIGINAL OUTGOING") as (Hin4 & Ha4 & Hw4 & _).
  cbn [snd]. rewrite !in_calls_app, !action_calls_app, !writes_app.
  rewrite Hc, Hin2, Hin3, Hin4, Hin5, Ha, Ha2, Ha4, Ha5, Hw, Hw2, Hw3, Hw4, Hw5.
  rewrite !app_nil_r. cbn [app]. rewrite <- Hv.
  split; [reflexivity |]. split; [| split; [exact Hlen | reflexivity]].
  eapply Forall_impl; [exact Hall |]. intros c [_ Hok]. exact Hok.
Qed.

(** [doFunkensturm] writes nothing itself: its trace holds prints and the
    calls of the passes. *)
Lemma doFunkensturm_trace (w : W) (m : Msg) :
  Response (hdr m) = false ->
  exists w' log6 ret,
    doFunkensturm Pack verbose f w (Some m)
      = Ok (w', when_verbose verbose (verboseprint (Some m) "ORIGINAL INCOMING")
                ++ (passes verbose f w (Some m)).2 ++ log6, ret) /\
    prints_only log6 /\
    w' = (passes verbose f w (Some m)).1.1 /\
    match (passes verbose f w (Some m)).1.2 with
    | None => ret = (None, None)
    | Some p2 =>
        ret = if (Pack p2).2 then ((Pack p2).1, None) else (None, Some error_pack)
    end.
Proof.
  intros Hq. unfold doFunkensturm. rewrite Hq.
  destruct (passes verbose f w (Some m)) as [[w3 pkt2] log]. cbn [fst snd].
  destruct pkt2 as [p2|].
  - destruct (Pack p2) as [out ok1]. cbn [fst snd].
    exists w3, (when_verbose verbose (verboseprint (Some p2) "MODIFIED OUTGOING" ++ [Stdout rule])).
    destruct ok1; cbn [negb]; eexists; (split; [reflexivity |]);
      (split; [apply when_verbose_prints; repeat split | split; reflexivity]).
  - exists w3, [], (None, None). rewrite app_nil_r.
    split; [reflexivity |]. split; [repeat split | split; reflexivity].
Qed.

(** C7.  When packing the final outgoing message fails, [doFunkensturm]
    returns no bytes and the error "Packing packet failed", and [reply]
    writes nothing to the connection: it prints the error instead. *)
Theorem pack_failure_is_reported (w w' : W) (m p : Msg) (log : list event) :
  Response (hdr m) = false ->
  passes verbose f w (Some m) = (w', Some p, log) ->
  (Pack p).2 = false ->
  (exists log', doFunkensturm Pack verbose f w (Some m)
                = Ok (w', log', (None, Some error_pack))) /\
  (exists log', reply Pack verbose f w (Some m)
                = Ok (w', log' ++ [Stderr ("Error: " +:+ error_pack +:+ nl)]) /\
                writes (log' ++ [Stderr ("Error: " +:+ error_pack +:+ nl)]) = []).
Proof.
  intros Hq Hp Hpack.
  destruct (doFunkensturm_trace w m Hq) as (w1 & log6 & ret & Hrun & (_ & _ & Hw6 & _) & Hw1 & Hret).
  destruct (passes_trace w (Some m)) as (_ & _ & _ & Hw).
  destruct (verboseprint_prints (Some m) "ORIGINAL INCOMING") as (_ & _ & Hw0 & _).
  rewrite Hp in Hrun, Hw1, Hret, Hw. cbn [fst snd] in Hrun, Hw1, Hret, Hw.
  rewrite Hpack in Hret. subst w1 ret. split.
  - eexists. exact Hrun.
  - unfold reply. rewrite Hrun. cbn. eexists. split; [reflexivity |].
    rewrite !writes_app, Hw0, Hw, Hw6. reflexivity.
Qed.

End FunkensturmFacts.

(** ** The xfrprx handler *)

Section XfrprxFacts.
Context {N : Type}.
Variable handleNotify : state N -> option Msg -> state N * option string.
Variable handleXfrOut : state N -> option Msg -> state N * option string.

Lemma print_err_Zone (st : state N) (err : option string) : Zone (print_err st err) = Zone st.
Proof. destruct err; reflexivity. Qed.

(** For a message that is no response, [handle] returns: the two handlers
    run in turn, and the zone they leave is kept but for its flag. *)
Lemma handle_runs (st : state N) (m : Msg) :
  Response (hdr m) = false ->
  exists st' z,
    handle handleNotify handleXfrOut st (Some m) = Ok st' /\
    z = Zone (handleXfrOut (print_err (handleNotify st (Some m)).1
                                       (handleNotify st (Some m)).2) (Some m)).1 /\
    name (Zone st') = name z /\ rrs (Zone st') = rrs z /\ size (Zone st') = size z /\
    correct (Zone st') = (if String.eqb (name z) "" then correct z else false).
Proof.
  intros Hq. unfold handle. rewrite Hq.
  destruct (handleNotify st (Some m)) as [st1 err1]. cbn [fst snd].
  destruct (handleXfrOut (print_err st1 err1) (Some m)) as [st2 err2]. cbn [fst snd].
  rewrite print_err_Zone.
  destruct (String.eqb (name (Zone st2)) "") eqn:E; cbn [negb];
    eexists _, (Zone st2); (split; [reflexivity |]); (split; [reflexivity |]);
    cbn; rewrite ?print_err_Zone, E; repeat split.
Qed.

(** C1 (what the code does instead).  After [handle] has served a message
    that is no response, a zone that is held (its name is set) has its
    [correct] flag false, whatever the transfer and its verification came
    to in the handlers. *)
Theorem handle_leaves_held_zone_incorrect (st st' : state N) (m : Msg) :
  Response (hdr m) = false ->
  handle handleNotify handleXfrOut st (Some m) = Ok st' ->
  name (Zone st') <> "" ->
  correct (Zone st') = false.
Proof.
  intros Hq Hrun Hname.
  destruct (handle_runs st m Hq) as (st1 & z & Hrun1 & _ & Hn & _ & _ & Hc).
  rewrite Hrun in Hrun1. injection Hrun1 as <-. rewrite Hc.
  destruct (String.eqb_spec (name z) "") as [E|_]; [| reflexivity].
  rewrite Hn in Hname. contradiction.
Qed.

(** When neither handler touches the zone, [handle] leaves it as it was,
    given that a held zone came in with its flag false (as [handle] itself
    leaves every held zone). *)
Lemma handle_keeps_zone (st st' : state N) (m : Msg) :
  Response (hdr m) = false ->
  (forall st, Zone (handleNotify st (Some m)).1 = Zone st) ->
  (forall st, Zone (handleXfrOut st (Some m)).1 = Zone st) ->
  name (Zone st) = "" \/ correct (Zone st) = false ->
  handle handleNotify handleXfrOut st (Some m) = Ok st' ->
  Zone st' = Zone st.
Proof.
  intros Hq HN HX Hflag Hrun.
  destruct (handle_runs st m Hq) as (st1 & z & Hrun1 & Hz & Hn & Hr & Hs & Hc).
  rewrite Hrun in Hrun1. injection Hrun1 as <-.
  rewrite HX, print_err_Zone, HN in Hz. subst z.
  destruct (Zone st') as [n' r' s' c'], (Zone st) as [n0 r0 s0 c0]. cbn in *. subst.
  f_equal. destruct Hflag as [-> | ->]; [reflexivity |].
  destruct (String.eqb n0 ""); reflexivity.
Qed.

(** [handle] keeps a zone within its bound when the handlers do. *)
Lemma handle_bounded (st st' : state N) (i : option Msg) :
  (forall st i, Transfer.bounded (Zone st) -> Transfer.bounded (Zone (handleNotify st i).1)) ->
  (forall st i, Transfer.bounded (Zone st) -> Transfer.bounded (Zone (handleXfrOut st i).1)) ->
  Transfer.bounded (Zone st) ->
  handle handleNotify handleXfrOut st i = Ok st' ->
  Transfer.bounded (Zone st').
Proof.
  intros HN HX Hst. unfold handle. destruct i as [m|]; [| discriminate].
  destruct (Response (hdr m)); [intros [= <-]; exact Hst |].
  specialize (HN st (Some m) Hst).
  destruct (handleNotify st (Some m)) as [st1 err1]. cbn [fst] in HN.
  specialize (HX (print_err st1 err1) (Some m)). rewrite print_err_Zone in HX.
  specialize (HX HN).
  destruct (handleXfrOut (print_err st1 err1) (Some m)) as [st2 err2]. cbn [fst] in HX.
  rewrite <- (print_err_Zone st2 err2) in HX.
  destruct (negb _); intros [= <-]; exact HX.
Qed.

End XfrprxFacts.

(** C2.  A message whose Response bit is set is dropped by both handlers.
    [handle] returns at once and leaves the process as it was: the zone,
    the connection and the network untouched, [handleNotify] and
    [handleXfrOut] not run.  [doFunkensturm] returns no bytes and an error
    without calling a stage function, and [reply] writes nothing to the
    connection. *)
Theorem response_bit_is_ignored
    (W N : Type) (Pack : Msg -> option (list Byte.byte) * bool) (verbose : bool)
    (f : Funkensturm.Funkensturm W) (w : W)
    (handleNotify handleXfrOut : state N -> option Msg -> state N * option string)
    (st : state N) (m : Msg) :
  Response (hdr m) = true ->
  handle handleNotify handleXfrOut st (Some m) = Ok st /\
  (exists log,
     Funkensturm.doFunkensturm Pack verbose f w (Some m)
       = Ok (w, log, (None, Some Funkensturm.error_response)) /\
     Funkensturm.prints_only log) /\
  (exists log,
     Funkensturm.reply Pack verbose f w (Some m) = Ok (w, log) /\
     Funkensturm.writes log = [] /\ Funkensturm.calls log = []).
Proof.
  intros Hq. unfold handle, Funkensturm.reply, Funkensturm.doFunkensturm. rewrite Hq.
  pose proof (verboseprint_prints verbose (Some m) "ORIGINAL INCOMING") as Hp.
  split; [reflexivity |]. split.
  - eexists. split; [reflexivity | exact Hp].
  - cbn. eexists. split; [reflexivity |].
    destruct Hp as (_ & _ & Hw & Hc).
    rewrite writes_app, calls_app, Hw, Hc. split; reflexivity.
Qed.

(** ** The transfer engine *)

Section TransferFacts.
Import Transfer.
Implicit Types (e : engine) (i : input) (ins : list input) (z : zone).

Lemma run_cons e i ins : run e (i :: ins) = run (step e i) ins.
Proof. reflexivity. Qed.

(** [Committed] and [Aborted] are final. *)
Lemma step_final e i : in_flight (at_ e) = false -> at_ e <> Idle -> step e i = e.
Proof.
  unfold step. destruct (at_ e) eqn:Hat; cbn; try discriminate;
    intros _ Hidle; try contradiction; destruct i; reflexivity.
Qed.

Lemma run_committed e ins : at_ e = Committed -> run e ins = e.
Proof.
  intros Hat. induction ins as [|i ins IH]; [reflexivity |].
  rewrite run_cons, step_final; [exact IH | rewrite Hat; reflexivity | rewrite Hat; discriminate].
Qed.

(** One step leaves the live store alone unless it commits. *)
Lemma step_live e i : live (step e i) = live e \/ at_ (step e i) = Committed.
Proof.
  unfold step, abort, goto.
  destruct (at_ e); destruct i; cbn;
    repeat match goal with
           | |- context [if ?b then _ else _] => destruct b; cbn
           | |- context [match append ?z ?rr with _ => _ end] => destruct (append z rr); cbn
           end; auto.
Qed.

(** A run leaves the live store alone unless it ends committed. *)
Lemma run_live ins : forall e, live (run e ins) = live e \/ at_ (run e ins) = Committed.
Proof.
  induction ins as [|i ins IH]; intros e; [left; reflexivity |].
  rewrite run_cons. destruct (step_live e i) as [Hlive | Hdone].
  - rewrite <- Hlive. apply IH.
  - right. rewrite (run_committed _ ins Hdone). exact Hdone.
Qed.

Lemma append_bounded z rr z' : bounded z -> append z rr = Some z' -> bounded z'.
Proof.
  unfold bounded, append. intros [Hlen Hsize].
  destruct (Z.ltb_spec (size z) capacity); [| discriminate].
  intros [= <-]. cbn [rrs size]. rewrite length_insert. split; [exact Hlen | lia].
Qed.

Lemma append_full z rr : capacity <= size z -> append z rr = None.
Proof. unfold append. intros Hfull. destruct (Z.ltb_spec (size z) capacity); [lia | reflexivity]. Qed.

Lemma empty_scratch_bounded (apex : string) : bounded (empty_scratch apex).
Proof. unfold bounded, empty_scratch. cbn [rrs size]. rewrite length_replicate. unfold capacity. lia. Qed.

Lemma Zone0_bounded : bounded Zone0.
Proof. apply (empty_scratch_bounded ""). Qed.

(** One step keeps the live store and the scratch buffer within bound. *)
Lemma step_bounded e i : engine_bounded e -> engine_bounded (step e i).
Proof.
  unfold engine_bounded, step, abort, goto. destruct e as [lv ph]. cbn [live at_].
  intros [Hlive Hscratch].
  destruct ph as [| apex serial | apex serial | scratch serial | scratch | | why];
    destruct i as [apex' serial' | | | rr | | | | [|]]; cbn [live at_ scratch_of];
    repeat match goal with
           | |- context [if ?b then _ else _] => destruct b; cbn [live at_ scratch_of]
           | |- context [match append ?z ?rr with _ => _ end] =>
               destruct (append z rr) eqn:?; cbn [live at_ scratch_of]
           end;
    (split;
     [ first [exact Hlive | apply (Hscratch _ eq_refl)]
     | intros ? Hz;
       first [ discriminate Hz
             | injection Hz as <-;
               first [ apply (Hscratch _ eq_refl)
                     | eapply append_bounded; [| eassumption];
                       first [apply empty_scratch_bounded | apply (Hscratch _ eq_refl)] ] ] ]).
Qed.

Lemma run_bounded ins : forall e, engine_bounded e -> engine_bounded (run e ins).
Proof.
  induction ins as [|i ins IH]; intros e He; [exact He |].
  rewrite run_cons. apply IH, step_bounded, He.
Qed.

(** C3.  A transfer that ends aborted leaves the live Zone Store as it was
    before the attempt.  Each failure the claim names aborts the transfer:
    a failed or dropped connection, a message of the stream that does not
    decode, a verification that fails, a record for which the scratch
    buffer has no room; and the abort itself does not touch the store. *)
Theorem aborted_transfer_leaves_store :
  (forall e ins why, at_ (run e ins) = Aborted why -> live (run e ins) = live e) /\
  (forall e, on_the_wire (at_ e) = true -> step e Dropped = abort e ConnectionError) /\
  (forall e apex serial,
     at_ e = NotifyReceived apex serial -> step e ConnectFailed = abort e ConnectionError) /\
  (forall e, reading (at_ e) = true -> step e Garbled = abort e MalformedStream) /\
  (forall e scratch,
     at_ e = Verifying scratch -> step e (Verdict false) = abort e VerificationFailure) /\
  (forall e scratch serial rr,
     at_ e = Streaming scratch serial -> terminates rr serial = false ->
     capacity <= size scratch -> step e (Record_ rr) = abort e BufferOverflow) /\
  (forall e why, live (abort e why) = live e /\ at_ (abort e why) = Aborted why).
Proof.
  repeat split.
  - intros e ins why Hend. destruct (run_live ins e) as [Hlive | Hdone]; [exact Hlive |].
    rewrite Hend in Hdone. discriminate.
  - intros e. unfold step. destruct (at_ e); cbn; (discriminate || reflexivity).
  - intros e apex serial Hat. unfold step. rewrite Hat. reflexivity.
  - intros e. unfold step. destruct (at_ e); cbn; (discriminate || reflexivity).
  - intros e scratch Hat. unfold step. rewrite Hat. reflexivity.
  - intros e scratch serial rr Hat Hterm Hfull. unfold step.
    rewrite Hat, Hterm, append_full by exact Hfull. reflexivity.
Qed.

(** C5.  The record buffer is an array of 10000 entries, and the zero
    [Zone] is within it.  Whatever reaches the transfer engine, the live
    store and the scratch buffer stay within the bound: [size] never
    exceeds 10000 and the array keeps its length.  A record arriving at a
    full scratch buffer aborts the transfer with the overflow reported and
    the live store as it was.  [handle] adds no record: it keeps the store
    within the bound when the handlers it calls do. *)
Theorem zone_store_stays_within_capacity :
  capacity = 10000 /\
  bounded Zone0 /\
  (forall e ins, engine_bounded e -> engine_bounded (run e ins)) /\
  (forall e scratch serial rr,
     at_ e = Streaming scratch serial -> terminates rr serial = false ->
     size scratch = capacity ->
     step e (Record_ rr) = mkEngine (live e) (Aborted BufferOverflow)) /\
  (forall (N : Type)
          (handleNotify handleXfrOut : state N -> option Msg -> state N * option string)
          (st st' : state N) (pkt : option Msg),
     (forall st pkt, bounded (Zone st) -> bounded (Zone (handleNotify st pkt).1)) ->
     (forall st pkt, bounded (Zone st) -> bounded (Zone (handleXfrOut st pkt).1)) ->
     bounded (Zone st) ->
     handle handleNotify handleXfrOut st pkt = Ok st' ->
     bounded (Zone st')).
Proof.
  split; [reflexivity |]. split; [exact Zone0_bounded |].
  split; [intros e ins; apply run_bounded |]. split.
  - intros e scratch serial rr Hat Hterm Hfull. unfold step.
    rewrite Hat, Hterm, append_full by lia. reflexivity.
  - intros N hN hX st st' pkt. apply handle_bounded.
Qed.

End TransferFacts.

(** ** The properties on concrete runs *)

(** A NOTIFY for serial 5 whose transfer completes and verifies: the engine
    commits the zone with the flag set, and [handle] leaves it cleared. *)
Lemma handle_leaves_held_zone_incorrect_witness :
  Response (hdr (Sample.notify 5)) = false /\
  handle Sample.handleNotify_engine Sample.handleXfrOut_none
         (Sample.process Sample.good_stream) (Some (Sample.notify 5))
    = Ok Sample.after_good /\
  name (Zone Sample.after_good) <> "" /\
  Transfer.at_ (Transfer.run (Transfer.mkEngine Zone0 Transfer.Idle)
                  (Transfer.Notify "example.com." 5 :: Sample.good_stream))
    = Transfer.Committed /\
  correct Sample.transferred = true /\
  correct (Zone Sample.after_good) = false.
Proof.
  assert (Hrun : handle Sample.handleNotify_engine Sample.handleXfrOut_none
                   (Sample.process Sample.good_stream) (Some (Sample.notify 5))
                 = Ok Sample.after_good) by (vm_compute; reflexivity).
  assert (Hname : name (Zone Sample.after_good) <> "")
    by (intros E; vm_compute in E; discriminate E).
  split; [reflexivity |]. split; [exact Hrun |]. split; [exact Hname |].
  split; [vm_compute; reflexivity |]. split; [vm_compute; reflexivity |].
  apply (handle_leaves_held_zone_incorrect
           Sample.handleNotify_engine Sample.handleXfrOut_none
           (Sample.process Sample.good_stream) Sample.after_good (Sample.notify 5));
    [reflexivity | exact Hrun | exact Hname].
Defined.

(** A response sent to both handlers. *)
Lemma response_bit_is_ignored_witness :
  Response (hdr (Sample.response 3)) = true /\
  handle Sample.handleNotify_engine Sample.handleXfrOut_none
         (Sample.process Sample.good_stream) (Some (Sample.response 3))
    = Ok (Sample.process Sample.good_stream) /\
  (exists log,
     Funkensturm.doFunkensturm Sample.pack_id true Sample.proxy 0%nat (Some (Sample.response 3))
       = Ok (0%nat, log, (None, Some Funkensturm.error_response)) /\
     Funkensturm.prints_only log) /\
  (exists log,
     Funkensturm.reply Sample.pack_id true Sample.proxy 0%nat (Some (Sample.response 3))
       = Ok (0%nat, log) /\
     Funkensturm.writes log = [] /\ Funkensturm.calls log = []).
Proof.
  split; [reflexivity |].
  apply (response_bit_is_ignored nat (list Transfer.input) Sample.pack_id true Sample.proxy 0%nat
           Sample.handleNotify_engine Sample.handleXfrOut_none
           (Sample.process Sample.good_stream) (Sample.response 3)).
  reflexivity.
Defined.

(** A transfer cut by a dropped connection after two records. *)
Lemma aborted_transfer_leaves_store_witness :
  Transfer.at_ (Transfer.run (Transfer.mkEngine Zone0 Transfer.Idle)
                  (Transfer.Notify "example.com." 5 :: Sample.cut_stream))
    = Transfer.Aborted Transfer.ConnectionError /\
  Transfer.live (Transfer.run (Transfer.mkEngine Zone0 Transfer.Idle)
                   (Transfer.Notify "example.com." 5 :: Sample.cut_stream))
    = Zone0.
Proof.
  split; [vm_compute; reflexivity |].
  apply (proj1 aborted_transfer_leaves_store
           (Transfer.mkEngine Zone0 Transfer.Idle)
           (Transfer.Notify "example.com." 5 :: Sample.cut_stream)
           Transfer.ConnectionError).
  vm_compute. reflexivity.
Defined.

(** The bound along a complete transfer, and a record arriving at a full
    scratch buffer. *)
Lemma zone_store_stays_within_capacity_witness :
  Transfer.engine_bounded (Transfer.mkEngine Zone0 Transfer.Idle) /\
  Transfer.engine_bounded
    (Transfer.run (Transfer.mkEngine Zone0 Transfer.Idle)
       (Transfer.Notify "example.com." 5 :: Sample.good_stream)) /\
  Transfer.step
    (Transfer.mkEngine Zone0
       (Transfer.Streaming (mkZone "example.com." (rrs Zone0) capacity false) 5))
    (Transfer.Record_ (Sample.txt "one too many"))
    = Transfer.mkEngine Zone0 (Transfer.Aborted Transfer.BufferOverflow).
Proof.
  assert (H0 : Transfer.engine_bounded (Transfer.mkEngine Zone0 Transfer.Idle)).
  { split; [exact Zone0_bounded | intros z Hz; discriminate Hz]. }
  split; [exact H0 |]. split.
  - apply (proj1 (proj2 (proj2 zone_store_stays_within_capacity))). exact H0.
  - apply (proj1 (proj2 (proj2 (proj2 zone_store_stays_within_capacity)))
             (Transfer.mkEngine Zone0
                (Transfer.Streaming (mkZone "example.com." (rrs Zone0) capacity false) 5))
             (mkZone "example.com." (rrs Zone0) capacity false) 5);
      reflexivity.
Defined.

(** A query through [Sample.proxy] with a packer that takes no message. *)
Lemma pack_failure_is_reported_witness :
  Response (hdr (Sample.query 3)) = false /\
  Funkensturm.passes false Sample.proxy 0%nat (Some (Sample.query 3))
    = (1%nat, Some (Sample.query 3),
       (Funkensturm.passes false Sample.proxy 0%nat (Some (Sample.query 3))).2) /\
  (Sample.pack_fails (Sample.query 3)).2 = false /\
  (exists log',
     Funkensturm.doFunkensturm Sample.pack_fails false Sample.proxy 0%nat (Some (Sample.query 3))
       = Ok (1%nat, log', (None, Some Funkensturm.error_pack))) /\
  (exists log',
     Funkensturm.reply Sample.pack_fails false Sample.proxy 0%nat (Some (Sample.query 3))
       = Ok (1%nat, log' ++ [Funkensturm.Stderr
                               ("Error: " +:+ Funkensturm.error_pack +:+ Funkensturm.nl)]) /\
     Funkensturm.writes
       (log' ++ [Funkensturm.Stderr
                   ("Error: " +:+ Funkensturm.error_pack +:+ Funkensturm.nl)]) = []).
Proof.
  split; [reflexivity |]. split; [vm_compute; reflexivity |]. split; [reflexivity |].
  apply (pack_failure_is_reported Sample.pack_fails false Sample.proxy 0%nat 1%nat
           (Sample.query 3) (Sample.query 3)
           (Funkensturm.passes false Sample.proxy 0%nat (Some (Sample.query 3))).2);
    [reflexivity | vm_compute; reflexivity | reflexivity].
Defined.

(** ** The code on small inputs *)

Example fields_of_a_line :
  Sample.fields "  nameserver   ::1 " = ["nameserver"; "::1"].
Proof. reflexivity. Qed.

Example FromFile_resolv_conf :
  Resolver.FromFile (H := Sample.helpers Sample.etc Sample.resolv_conf)
    Sample.resolver0 Sample.etc = Ok (Sample.resolved, None).
Proof. vm_compute. reflexivity. Qed.

Example FromFile_no_such_file :
  Resolver.FromFile (H := Sample.helpers Sample.etc Sample.resolv_conf)
    Sample.resolver0 "/nowhere" = Ok (Sample.resolver0, Some "no such file").
Proof. reflexivity. Qed.

Example FromFile_options_line :
  Resolver.FromFile
    (H := Sample.helpers Sample.etc ["options ndots:3 timeout:0 attempts:7 rotate attempt:4"])
    Sample.resolver0 Sample.etc
  = Ok (Resolver.mkResolver (mkSlice [""; ""; ""] 0) (mkSlice [] 0) 3 1 7 true, None).
Proof. vm_compute. reflexivity. Qed.

Example reply_writes_what_Pack_returns :
  exists w log,
    Funkensturm.reply Sample.pack_id false Sample.proxy 0%nat (Some (Sample.query 3))
      = Ok (w, log) /\
    Funkensturm.writes log = [[Byte.x00; Byte.x01]].
Proof. eexists _, _. split; [vm_compute; reflexivity | reflexivity]. Qed.

Example handle_after_cut_stream :
  exists st,
    handle Sample.handleNotify_engine Sample.handleXfrOut_none
           (Sample.process Sample.cut_stream) (Some (Sample.notify 5)) = Ok st /\
    Zone st = Zone0 /\
    printed st = ["err connection error" +:+ Funkensturm.nl].
Proof. eexists. split; [vm_compute; reflexivity | split; reflexivity]. Qed.

(* ===================================================================== *)
(** * Part III.  More of the code                                         *)
(* ===================================================================== *)

(** ** resolver/config.go: the [options] tokens *)

Section TokenFacts.
Import Resolver Readings.
Context {H : Helpers}.
Implicit Types (r : Resolver) (s line : string) (f tokens file : list string).

Lemma substring_whole s : String.substring 0 (String.length s) s = s.
Proof. induction s as [|c s IH]; cbn; [reflexivity | rewrite IH; reflexivity]. Qed.

Lemma substr_within s hi :
  0 <= hi <= len_string s -> substr s 0 hi = Ok (String.substring 0 (Z.to_nat hi) s).
Proof.
  intros Hhi. unfold substr.
  replace ((0 <=? 0) && (0 <=? hi) && (hi <=? len_string s)) with true
    by (symmetry; rewrite !andb_true_iff; lia).
  rewrite Z.sub_0_r. reflexivity.
Qed.

Lemma substr_beyond s hi : len_string s < hi -> substr s 0 hi = Panic slice_panic.
Proof.
  intros Hhi. unfold substr.
  replace (hi <=? len_string s) with false by (symmetry; apply Z.leb_gt; lia).
  rewrite andb_false_r. reflexivity.
Qed.

(** The [switch] of lines 68-89 case by case, the slices taken. *)
Lemma option_token_eq r s :
  option_token r s =
  if (6 <=? len_string s) && String.eqb (String.substring 0 6 s) "ndots:" then
    Ok (set_Ndots r (if (dtoi s 6).1.1 <? 1 then 1 else (dtoi s 6).1.1))
  else if (8 <=? len_string s) && String.eqb (String.substring 0 8 s) "timeout:" then
    Ok (set_Timeout r (if (dtoi s 8).1.1 <? 1 then 1 else (dtoi s 8).1.1))
  else if len_string s =? 8 then Panic slice_panic
  else if (9 <=? len_string s) && String.eqb (String.substring 0 9 s) "attempts:" then
    Ok (set_Attempts r (if (dtoi s 9).1.1 <? 1 then 1 else (dtoi s 9).1.1))
  else if String.eqb s "rotate" then Ok (set_Rotate r true)
  else Ok r.
Proof.
  unfold option_token, and_then.
  destruct (Z.leb_spec 6 (len_string s)) as [H6|H6]; cbn [andb].
  - rewrite (substr_within s 6) by lia. cbn. change (Z.to_nat 6) with 6%nat.
    destruct (String.eqb (String.substring 0 6 s) "ndots:").
    { destruct (dtoi s 6) as [[n i] ok]. reflexivity. }
    destruct (Z.leb_spec 8 (len_string s)) as [H8|H8]; cbn [andb].
    + rewrite (substr_within s 8) by lia. cbn. change (Z.to_nat 8) with 8%nat.
      destruct (String.eqb (String.substring 0 8 s) "timeout:").
      { destruct (dtoi s 8) as [[n i] ok]. reflexivity. }
      destruct (Z.eqb_spec (len_string s) 8) as [E8|N8].
      * rewrite (substr_beyond s 9) by lia. reflexivity.
      * replace (9 <=? len_string s) with true by (symmetry; apply Z.leb_le; lia).
        rewrite (substr_within s 9) by lia. cbn. change (Z.to_nat 9) with 9%nat.
        destruct (String.eqb (String.substring 0 9 s) "attempts:"); [| reflexivity].
        destruct (dtoi s 9) as [[n i] ok]. reflexivity.
    + cbn. destruct (Z.eqb_spec (len_string s) 8); [lia |].
      replace (9 <=? len_string s) with false by (symmetry; apply Z.leb_gt; lia).
      reflexivity.
  - cbn.
    replace (8 <=? len_string s) with false by (symmetry; apply Z.leb_gt; lia).
    cbn. destruct (Z.eqb_spec (len_string s) 8); [lia |].
    replace (9 <=? len_string s) with false by (symmetry; apply Z.leb_gt; lia).
    reflexivity.
Qed.

(** A token returns exactly when it is [sliceable]. *)
Lemma option_token_returns r s :
  if sliceable s then exists r', option_token r s = Ok r'
  else option_token r s = Panic slice_panic.
Proof.
  rewrite option_token_eq. unfold sliceable.
  destruct (Z.eqb_spec (len_string s) 8) as [E8|N8]; cbn [negb orb].
  - rewrite E8. cbn [Z.leb andb]. change (6 <=? 8) with true. change (8 <=? 8) with true.
    cbn [andb].
    replace (String.substring 0 8 s) with s
      by (symmetry; rewrite <- (substring_whole s) at 2; f_equal; unfold len_string in E8; lia).
    destruct (String.eqb (String.substring 0 6 s) "ndots:"); cbn [orb]; [eauto |].
    destruct (String.eqb s "timeout:"); [eauto | reflexivity].
  - repeat match goal with
           | |- context [if ?b then _ else _] => destruct b
           end; eauto.
Qed.

(** The loop of lines 66-90 visits the tokens after the first field, in
    order. *)
Lemma loop_over_tokens {St : Type} (g : St -> string -> result St) f :
  forall (n : nat) (k : Z) (st : St),
    0 <= k -> k + Z.of_nat n = len f ->
    for_each (fun st i => x ← index f i; g st x) st (seqZ k (Z.of_nat n))
    = for_each g st (drop (Z.to_nat k) f).
Proof.
  induction n as [|n IH]; intros k st Hk Hn.
  - rewrite drop_ge by (unfold len in Hn; lia). reflexivity.
  - rewrite seqZ_cons by lia.
    destruct (index_in_range f k) as (x & Hx & Hl); [lia |].
    rewrite (drop_S _ x _ Hl). cbn [for_each]. rewrite Hx. cbn.
    destruct (g st x) as [st'|why]; [| reflexivity]. cbn.
    replace (Z.pred (Z.of_nat (S n))) with (Z.of_nat n) by lia.
    rewrite (IH (Z.succ k) st') by lia.
    replace (Z.to_nat (Z.succ k)) with (S (Z.to_nat k)) by lia. reflexivity.
Qed.

Lemma options_eq r (f0 : string) tokens :
  options r (f0 :: tokens) = for_each option_token r tokens.
Proof.
  unfold options.
  replace (len (f0 :: tokens) - 1) with (Z.of_nat (length tokens))
    by (rewrite len_cons; unfold len; lia).
  rewrite (loop_over_tokens option_token (f0 :: tokens) (length tokens) 1 r);
    [reflexivity | lia | rewrite len_cons; unfold len; lia].
Qed.

(** An [options] line is the loop over its tokens; any other line has no
    tokens. *)
Lemma directive_options r line :
  is_options line = true -> directive r line = for_each option_token r (option_tokens line).
Proof.
  unfold is_options, directive, option_tokens.
  destruct (getFields line) as [|f0 tokens]; [discriminate |].
  intros Hopt. rewrite Hopt.
  replace (len (f0 :: tokens) <? 1) with false
    by (symmetry; apply Z.ltb_ge; rewrite len_cons; pose proof (len_nonneg tokens); lia).
  rewrite index_first. cbn. apply String.eqb_eq in Hopt. subst f0. cbn.
  apply options_eq.
Qed.

Lemma option_tokens_plain line : is_options line = false -> option_tokens line = [].
Proof.
  unfold is_options, option_tokens. destruct (getFields line) as [|f0 tokens]; [reflexivity |].
  intros ->. reflexivity.
Qed.

End TokenFacts.

(** ** resolver/config.go: the whole file *)

Section ConfigFacts.
Import Resolver Readings.
Context {H : Helpers}.
Implicit Types (r : Resolver) (s line : string) (f tokens file : list string).

Lemma fresh_fit : servers_fit fresh /\ cap (Servers fresh) = 3.
Proof. unfold servers_fit, cap. cbn. lia. Qed.

Lemma directive_fit r line r1 :
  servers_fit r -> cap (Servers r) = 3 -> directive r line = Ok r1 ->
  servers_fit r1 /\ cap (Servers r1) = 3.
Proof.
  intros Hfit Hcap Hrun.
  destruct (directive_keeps_first_three r line r1 (servers r) Hfit Hcap) as (Hf & Hc & _);
    [| exact Hrun | split; assumption].
  symmetry. apply take_ge.
  pose proof (elems_length (Servers r) Hfit) as He.
  unfold servers_fit, servers, len in *. lia.
Qed.

(** A successful [FromFile] is the loop run from [fresh] on an opened
    file. *)
Lemma FromFile_Ok_inv r conf r' :
  FromFile r conf = Ok (r', None) ->
  exists file, open conf = inl file /\ for_each directive fresh file = Ok r'.
Proof.
  intros Hrun. destruct (open conf) as [file|err] eqn:Hopen;
    [| unfold FromFile in Hrun; rewrite Hopen in Hrun; discriminate].
  exists file. split; [reflexivity |].
  rewrite (FromFile_opened r conf file Hopen) in Hrun.
  apply bind_Ok in Hrun as (r1 & Hread & [= ->]). exact Hread.
Qed.

Lemma tokens_loop_returns tokens :
  forall r,
    if forallb sliceable tokens
    then exists r', for_each option_token r tokens = Ok r' /\ Servers r' = Servers r
    else for_each option_token r tokens = Panic slice_panic.
Proof.
  induction tokens as [|s tokens IH]; intros r; cbn [forallb for_each].
  - eauto.
  - pose proof (option_token_returns r s) as Hs. destruct (sliceable s); cbn [andb].
    + destruct Hs as (r1 & H1). rewrite H1. cbn.
      apply option_token_lists in H1 as [HS _]. specialize (IH r1).
      destruct (forallb sliceable tokens); [| exact IH].
      destruct IH as (r' & Hrun & HS'). exists r'. split; [exact Hrun | congruence].
    + rewrite Hs. reflexivity.
Qed.

Lemma read_returns file :
  forall r, servers_fit r -> cap (Servers r) = 3 ->
    if forallb (fun line => forallb sliceable (option_tokens line)) file
    then exists r', for_each directive r file = Ok r'
    else for_each directive r file = Panic slice_panic.
Proof.
  induction file as [|line file IH]; intros r Hfit Hcap; cbn [forallb for_each].
  - eauto.
  - destruct (is_options line) eqn:Hopt.
    + rewrite (directive_options r line Hopt).
      pose proof (tokens_loop_returns (option_tokens line) r) as Ht.
      destruct (forallb sliceable (option_tokens line)); cbn [andb].
      * destruct Ht as (r1 & H1 & HS). rewrite H1. cbn. apply IH.
        -- unfold servers_fit in *. rewrite HS. exact Hfit.
        -- rewrite HS. exact Hcap.
      * rewrite Ht. reflexivity.
    + rewrite (option_tokens_plain line Hopt). cbn [forallb andb].
      destruct (directive_plain r line Hfit Hopt) as (r1 & H1 & _).
      rewrite H1. cbn. destruct (directive_fit r line r1 Hfit Hcap H1). apply IH; assumption.
Qed.

(** X3.  On a file that opens, [FromFile] returns without error exactly
    when every token of every [options] line is [sliceable]; otherwise it
    panics on the slice [s[0:9]]. *)
Theorem FromFile_returns_unless_eight_bytes r conf file :
  open conf = inl file ->
  if forallb (fun line => forallb sliceable (option_tokens line)) file
  then exists r', FromFile r conf = Ok (r', None)
  else FromFile r conf = Panic slice_panic.
Proof.
  intros Hopen. rewrite (FromFile_opened r conf file Hopen).
  pose proof (read_returns file fresh (proj1 fresh_fit) (proj2 fresh_fit)) as Hread.
  fold fresh.
  destruct (forallb _ file).
  - destruct Hread as (r' & Hrun). exists r'. rewrite Hrun. reflexivity.
  - rewrite Hread. reflexivity.
Qed.

(** X1.  [FromFile] returns an error exactly when the file does not open:
    the error is [open]'s and the resolver is left as it was.  On a file
    that opens the outcome does not depend on what the resolver held
    before: nothing of it is kept. *)
Theorem FromFile_error_and_reset r conf :
  (forall r' err, FromFile r conf = Ok (r', Some err) <-> open conf = inr err /\ r' = r) /\
  (forall file r2, open conf = inl file -> FromFile r conf = FromFile r2 conf).
Proof.
  split.
  - intros r' err. split.
    + intros Hrun. destruct (open conf) as [file|e] eqn:Hopen.
      * rewrite (FromFile_opened r conf file Hopen) in Hrun.
        apply bind_Ok in Hrun as (r1 & _ & Hret). discriminate Hret.
      * unfold FromFile in Hrun. rewrite Hopen in Hrun. injection Hrun as -> ->.
        split; reflexivity.
    + intros [Hopen ->]. unfold FromFile. rewrite Hopen. reflexivity.
  - intros file r2 Hopen.
    rewrite (FromFile_opened r conf file Hopen), (FromFile_opened r2 conf file Hopen).
    reflexivity.
Qed.

Lemma option_token_positive r s r1 :
  option_token r s = Ok r1 -> options_positive r -> options_positive r1.
Proof.
  rewrite option_token_eq. unfold options_positive. intros Hrun (Hn & Ht & Ha).
  repeat match type of Hrun with
         | (if ?b then _ else _) = _ => destruct b
         end;
    first [discriminate Hrun | injection Hrun as <-]; cbn;
    repeat match goal with
           | |- context [if ?n <? 1 then _ else _] => destruct (Z.ltb_spec n 1)
           end; lia.
Qed.

Lemma directive_positive r line r1 :
  servers_fit r -> directive r line = Ok r1 -> options_positive r -> options_positive r1.
Proof.
  intros Hfit Hrun Hpos. destruct (is_options line) eqn:Hopt.
  - rewrite (directive_options r line Hopt) in Hrun.
    apply (for_each_keeps options_positive option_token (option_tokens line) r r1);
      [| exact Hpos | exact Hrun].
    intros r2 s r3 _ Hpos2 Htok. exact (option_token_positive r2 s r3 Htok Hpos2).
  - destruct (directive_plain r line Hfit Hopt) as (r2 & H2 & Hn & Ht & Ha & _).
    rewrite Hrun in H2. injection H2 as <-. unfold options_positive in *. lia.
Qed.

(** X2.  After [FromFile] has returned without error the three integer
    options are at least one, whatever numbers the file holds and whatever
    [dtoi] makes of them. *)
Theorem FromFile_options_at_least_one r conf r' :
  FromFile r conf = Ok (r', None) ->
  1 <= Ndots r' /\ 1 <= Timeout r' /\ 1 <= Attempts r'.
Proof.
  intros Hrun. apply FromFile_Ok_inv in Hrun as (file & _ & Hread).
  enough (Hall : (servers_fit r' /\ cap (Servers r') = 3) /\ options_positive r')
    by exact (proj2 Hall).
  apply (for_each_keeps
           (fun r => (servers_fit r /\ cap (Servers r) = 3) /\ options_positive r)
           directive file fresh r'); [| | exact Hread].
  - intros r1 line r2 _ [[Hfit Hcap] Hpos] Hline. split.
    + exact (directive_fit r1 line r2 Hfit Hcap Hline).
    + exact (directive_positive r1 line r2 Hfit Hline Hpos).
  - split; [exact fresh_fit |]. unfold options_positive, fresh. cbn. lia.
Qed.

End ConfigFacts.

(** ** resolver/config.go: [rotate] and the search list *)

Section ListFacts.
Import Resolver Readings.
Context {H : Helpers}.
Implicit Types (r : Resolver) (line : string) (f tokens file : list string).

Lemma option_token_rotate r s r1 :
  option_token r s = Ok r1 -> Rotate r1 = Rotate r || String.eqb "rotate" s.
Proof.
  destruct (String.eqb_spec "rotate" s) as [<- | Hne].
  - intros Hrun. change (option_token r "rotate") with (Ok (set_Rotate r true)) in Hrun.
    injection Hrun as <-. cbn. rewrite orb_true_r. reflexivity.
  - rewrite option_token_eq, orb_false_r. intros Hrun.
    destruct (String.eqb_spec s "rotate") as [E|_]; [congruence |].
    repeat match type of Hrun with
           | (if ?b then _ else _) = _ => destruct b
           end;
      first [discriminate Hrun | injection Hrun as <-]; reflexivity.
Qed.

Lemma tokens_rotate tokens :
  forall r r1, for_each option_token r tokens = Ok r1 ->
    Rotate r1 = Rotate r || existsb (String.eqb "rotate") tokens.
Proof.
  induction tokens as [|s tokens IH]; intros r r1; cbn [for_each existsb].
  - intros [= <-]. rewrite orb_false_r. reflexivity.
  - intros Hrun. apply bind_Ok in Hrun as (r2 & H2 & Hrest).
    rewrite (IH r2 r1 Hrest), (option_token_rotate r s r2 H2), orb_assoc. reflexivity.
Qed.

Lemma directive_rotate r line r1 :
  servers_fit r -> directive r line = Ok r1 ->
  Rotate r1 = Rotate r || existsb (String.eqb "rotate") (option_tokens line).
Proof.
  intros Hfit Hrun. destruct (is_options line) eqn:Hopt.
  - rewrite (directive_options r line Hopt) in Hrun. apply tokens_rotate. exact Hrun.
  - rewrite (option_tokens_plain line Hopt). cbn. rewrite orb_false_r.
    destruct (directive_plain r line Hfit Hopt) as (r2 & H2 & _ & _ & _ & Hr).
    rewrite Hrun in H2. injection H2 as <-. exact Hr.
Qed.

Lemma read_rotate file :
  forall r r', servers_fit r -> cap (Servers r) = 3 ->
    for_each directive r file = Ok r' ->
    Rotate r' = Rotate r || asks_rotate file.
Proof.
  unfold asks_rotate.
  induction file as [|line file IH]; intros r r' Hfit Hcap; cbn [for_each existsb].
  - intros [= <-]. rewrite orb_false_r. reflexivity.
  - intros Hrun. apply bind_Ok in Hrun as (r1 & H1 & Hrest).
    destruct (directive_fit r line r1 Hfit Hcap H1) as [Hfit1 Hcap1].
    rewrite (IH r1 r' Hfit1 Hcap1 Hrest), (directive_rotate r line r1 Hfit H1), orb_assoc.
    reflexivity.
Qed.

(** X4.  After [FromFile] has returned without error, [Rotate] is set
    exactly when some [options] line of the file holds the token [rotate];
    no token clears it, and a [rotate] outside an [options] line does
    nothing. *)
Theorem FromFile_rotate r conf r' :
  FromFile r conf = Ok (r', None) ->
  exists file, open conf = inl file /\ Rotate r' = asks_rotate file.
Proof.
  intros Hrun. apply FromFile_Ok_inv in Hrun as (file & Hopen & Hread).
  exists file. split; [exact Hopen |].
  exact (read_rotate file fresh r' (proj1 fresh_fit) (proj2 fresh_fit) Hread).
Qed.

(** The loop of lines 61-63 fills the new list with the tokens, one store
    per index. *)
Lemma search_fill r (f0 : string) tokens :
  forall (n : nat) (k : Z) (s : slice string),
    0 <= k -> k + Z.of_nat n = len tokens ->
    slen s = len tokens -> length (arr s) = length tokens ->
    take (Z.to_nat k) (arr s) = take (Z.to_nat k) tokens ->
    exists s',
      for_each (fun r' i =>
                  x ← index (f0 :: tokens) (i + 1);
                  s ← store (Search r') i x;
                  Ok (set_Search r' s))
               (set_Search r s) (seqZ k (Z.of_nat n))
      = Ok (set_Search r s') /\
      arr s' = tokens /\ slen s' = len tokens.
Proof.
  induction n as [|n IH]; intros k s Hk Hn Hslen Hlen Htake.
  - exists s. split; [reflexivity |]. split; [| exact Hslen].
    unfold len in Hn. rewrite !take_ge in Htake by lia. exact Htake.
  - rewrite seqZ_cons by lia. cbn [for_each].
    destruct (index_in_range (f0 :: tokens) (k + 1)) as (x & Hx & Hl);
      [rewrite len_cons; lia |].
    replace (Z.to_nat (k + 1)) with (S (Z.to_nat k)) in Hl by lia. cbn in Hl.
    rewrite Hx. cbn. rewrite store_in_range by lia. cbn.
    replace (Z.pred (Z.of_nat (S n))) with (Z.of_nat n) by lia.
    apply (IH (Z.succ k) (mkSlice (<[Z.to_nat k := x]> (arr s)) (slen s))); cbn [arr slen];
      [lia | lia | exact Hslen | rewrite length_insert; exact Hlen |].
    replace (Z.to_nat (Z.succ k)) with (S (Z.to_nat k)) by lia.
    unfold len in Hn.
    rewrite (take_S_r _ _ x) by (apply list_lookup_insert_eq; lia).
    rewrite (take_S_r tokens _ x Hl), take_insert_ge by lia.
    rewrite Htake. reflexivity.
Qed.

Lemma search_list r (f0 : string) tokens :
  exists s, search r (f0 :: tokens) = Ok (set_Search r s) /\ elems s = tokens.
Proof.
  unfold search.
  replace (len (f0 :: tokens) - 1) with (len tokens) by (rewrite len_cons; lia).
  rewrite make_fits by apply len_nonneg. cbn.
  destruct (search_fill r f0 tokens (length tokens) 0
              (mkSlice (replicate (Z.to_nat (len tokens)) "") (len tokens)))
    as (s' & Hrun & Harr & Hslen);
    [ lia | unfold len; lia | reflexivity
    | cbn [arr]; rewrite length_replicate; unfold len; lia | reflexivity |].
  exists s'. split; [exact Hrun |]. unfold elems. rewrite Harr, Hslen.
  apply take_ge. unfold len. lia.
Qed.

Lemma domain_list r (f0 : string) tokens :
  exists s, domain r (f0 :: tokens) = Ok (set_Search r s) /\ elems s = take 1 tokens.
Proof.
  unfold domain. destruct tokens as [|x tokens].
  - cbn. eexists. split; reflexivity.
  - replace (1 <? len (f0 :: x :: tokens)) with true
      by (symmetry; apply Z.ltb_lt; rewrite !len_cons; pose proof (len_nonneg tokens); lia).
    cbn. rewrite index_second. cbn. eexists. split; reflexivity.
Qed.

(** What a line does to the search list, whenever the line is parsed. *)
Lemma directive_search_list r line r1 :
  servers_fit r -> directive r line = Ok r1 ->
  elems (Search r1) = default (elems (Search r)) (search_of_line line).
Proof.
  intros [Hr _]. unfold directive, search_of_line.
  destruct (getFields line) as [|f0 tokens]; [cbn; intros [= <-]; reflexivity |].
  replace (len (f0 :: tokens) <? 1) with false
    by (symmetry; apply Z.ltb_ge; rewrite len_cons; pose proof (len_nonneg tokens); lia).
  rewrite index_first. cbn.
  destruct (String.eqb_spec f0 "nameserver") as [-> | _].
  { rewrite nameserver_eq by exact Hr. intros [= <-]. cbn.
    destruct tokens as [|name tokens]; [reflexivity |].
    destruct (server_entry name); [| reflexivity].
    destruct (slen (Servers r) <? cap (Servers r)); reflexivity. }
  destruct (String.eqb f0 "domain").
  { destruct (domain_list r f0 tokens) as (s & -> & Hs). intros [= <-]. exact Hs. }
  destruct (String.eqb f0 "search").
  { destruct (search_list r f0 tokens) as (s & -> & Hs). intros [= <-]. exact Hs. }
  destruct (String.eqb f0 "options").
  { intros Hopt. apply options_lists in Hopt as [_ ->]. reflexivity. }
  intros [= <-]. reflexivity.
Qed.

Lemma read_search_list file :
  forall r r', servers_fit r -> cap (Servers r) = 3 ->
    for_each directive r file = Ok r' ->
    elems (Search r') = default (elems (Search r)) (last (omap search_of_line file)).
Proof.
  induction file as [|line file IH]; intros r r' Hfit Hcap; cbn [for_each].
  - intros [= <-]. reflexivity.
  - intros Hrun. apply bind_Ok in Hrun as (r1 & H1 & Hrest).
    destruct (directive_fit r line r1 Hfit Hcap H1) as [Hfit1 Hcap1].
    rewrite (IH r1 r' Hfit1 Hcap1 Hrest), (directive_search_list r line r1 Hfit H1).
    cbn. destruct (search_of_line line) as [l|]; [| reflexivity].
    rewrite last_cons. destruct (last (omap search_of_line file)); reflexivity.
Qed.

(** X5.  After [FromFile] has returned without error, the search list is
    the one the last [domain] or [search] line of the file asks for: the
    first token of a [domain] line, all the tokens of a [search] line in
    order; it is empty when the file has no such line.  A later line
    replaces the list, it does not add to it. *)
Theorem FromFile_search_list r conf r' :
  FromFile r conf = Ok (r', None) ->
  exists file,
    open conf = inl file /\
    elems (Search r') = default [] (last (omap search_of_line file)).
Proof.
  intros Hrun. apply FromFile_Ok_inv in Hrun as (file & Hopen & Hread).
  exists file. split; [exact Hopen |].
  exact (read_search_list file fresh r' (proj1 fresh_fit) (proj2 fresh_fit) Hread).
Qed.

End ListFacts.

(** The resolver properties on [Sample2.options_conf]. *)
Lemma FromFile_returns_unless_eight_bytes_witness :
  Resolver.open (Helpers := Sample.helpers Sample.etc Sample2.options_conf) Sample.etc
    = inl Sample2.options_conf /\
  exists r', Resolver.FromFile (H := Sample.helpers Sample.etc Sample2.options_conf)
               Sample.resolver0 Sample.etc = Ok (r', None).
Proof.
  split; [reflexivity |].
  pose proof (@FromFile_returns_unless_eight_bytes
                (Sample.helpers Sample.etc Sample2.options_conf)
                Sample.resolver0 Sample.etc Sample2.options_conf eq_refl) as Hw.
  exact Hw.
Defined.

Lemma FromFile_error_and_reset_witness :
  Resolver.open (Helpers := Sample.helpers Sample.etc Sample2.options_conf) "/nowhere"
    = inr "no such file" /\
  Resolver.FromFile (H := Sample.helpers Sample.etc Sample2.options_conf)
    Sample.resolved "/nowhere" = Ok (Sample.resolved, Some "no such file") /\
  Resolver.FromFile (H := Sample.helpers Sample.etc Sample2.options_conf)
    Sample.resolved Sample.etc
  = Resolver.FromFile (H := Sample.helpers Sample.etc Sample2.options_conf)
      Sample.resolver0 Sample.etc.
Proof.
  split; [reflexivity |]. split.
  - apply (proj1 (@FromFile_error_and_reset
                    (Sample.helpers Sample.etc Sample2.options_conf)
                    Sample.resolved "/nowhere")).
    split; reflexivity.
  - apply (proj2 (@FromFile_error_and_reset
                    (Sample.helpers Sample.etc Sample2.options_conf)
                    Sample.resolved Sample.etc) Sample2.options_conf).
    reflexivity.
Defined.

Lemma FromFile_options_at_least_one_witness :
  Resolver.FromFile (H := Sample.helpers Sample.etc Sample2.options_conf)
    Sample.resolver0 Sample.etc = Ok (Sample2.configured, None) /\
  1 <= Resolver.Ndots Sample2.configured /\
  1 <= Resolver.Timeout Sample2.configured /\
  1 <= Resolver.Attempts Sample2.configured.
Proof.
  split; [vm_compute; reflexivity |].
  apply (@FromFile_options_at_least_one
           (Sample.helpers Sample.etc Sample2.options_conf) Sample.resolver0 Sample.etc).
  vm_compute. reflexivity.
Defined.

Lemma FromFile_rotate_witness :
  Resolver.FromFile (H := Sample.helpers Sample.etc Sample2.options_conf)
    Sample.resolver0 Sample.etc = Ok (Sample2.configured, None) /\
  exists file,
    Resolver.open (Helpers := Sample.helpers Sample.etc Sample2.options_conf) Sample.etc
      = inl file /\
    Resolver.Rotate Sample2.configured
      = Readings.asks_rotate (H := Sample.helpers Sample.etc Sample2.options_conf) file.
Proof.
  split; [vm_compute; reflexivity |].
  apply (@FromFile_rotate
           (Sample.helpers Sample.etc Sample2.options_conf) Sample.resolver0 Sample.etc).
  vm_compute. reflexivity.
Defined.

Lemma FromFile_search_list_witness :
  Resolver.FromFile (H := Sample.helpers Sample.etc Sample2.options_conf)
    Sample.resolver0 Sample.etc = Ok (Sample2.configured, None) /\
  exists file,
    Resolver.open (Helpers := Sample.helpers Sample.etc Sample2.options_conf) Sample.etc
      = inl file /\
    elems (Resolver.Search Sample2.configured)
      = default [] (last (omap (Readings.search_of_line
                                  (H := Sample.helpers Sample.etc Sample2.options_conf)) file)).
Proof.
  split; [vm_compute; reflexivity |].
  apply (@FromFile_search_list
           (Sample.helpers Sample.etc Sample2.options_conf) Sample.resolver0 Sample.etc).
  vm_compute. reflexivity.
Defined.

(** ** _examples/funkensturm: the passes in full *)

Section PassFacts.
Import Funkensturm Traces.
Context {W : Type}.
Variable Pack : Msg -> option (list Byte.byte) * bool.
Variable f : Funkensturm W.

Lemma out_calls_app (l1 l2 : list event) : out_calls (l1 ++ l2) = out_calls l1 ++ out_calls l2.
Proof. apply omap_app. Qed.

Lemma unprinted_app (l1 l2 : list event) : unprinted (l1 ++ l2) = unprinted l1 ++ unprinted l2.
Proof. apply filter_app. Qed.

(** What [verboseprint] and the rule print is no call, and goes when the
    prints are dropped. *)
Lemma verbose_prints (v : bool) (i : option Msg) (msg : string) (more : list event) :
  Forall (fun e => is_print e = true) more ->
  out_calls (when_verbose v (verboseprint i msg ++ more)) = [] /\
  unprinted (when_verbose v (verboseprint i msg ++ more)) = [] /\
  calls (when_verbose v (verboseprint i msg ++ more)) = [].
Proof.
  intros Hmore. unfold when_verbose. destruct v; [| repeat split].
  assert (Hall : Forall (fun e => is_print e = true) (verboseprint i msg ++ more)).
  { apply Forall_app. split; [repeat constructor | exact Hmore]. }
  clear Hmore. induction Hall as [|e l He _ (IH1 & IH2 & IH3)]; [repeat split |].
  destruct e; try discriminate He; unfold out_calls, unprinted, calls in *; cbn;
    rewrite ?filter_cons; cbn; repeat split; try exact IH1;
    try (rewrite decide_False by discriminate; assumption).
Qed.

Lemma verbose_print (v : bool) (i : option Msg) (msg : string) :
  out_calls (when_verbose v (verboseprint i msg)) = [] /\
  unprinted (when_verbose v (verboseprint i msg)) = [] /\
  calls (when_verbose v (verboseprint i msg)) = [].
Proof.
  rewrite <- (app_nil_r (verboseprint i msg)). apply verbose_prints. constructor.
Qed.

(** The [IN] pass: only [IN] calls, one per stage; the packet it hands on
    is the one its last stage returned. *)
Lemma match_in_pass (ms : list (Match.t W)) :
  forall (w : W) (pkt : option Msg) (ok : bool),
    (match_in ms w pkt ok).1.1.2 = handed_on (chain ms w pkt) pkt /\
    calls (match_in ms w pkt ok).2 = (match_in ms w pkt ok).2 /\
    unprinted (match_in ms w pkt ok).2 = (match_in ms w pkt ok).2 /\
    length (match_in ms w pkt ok).2 = length ms /\
    Forall (fun e => is_in_call e = true) (match_in ms w pkt ok).2 /\
    out_calls (match_in ms w pkt ok).2 = [].
Proof.
  induction ms as [|m ms IH]; intros w pkt ok; cbn [match_in chain].
  - repeat split. constructor.
  - destruct (Match.Func m w pkt IN) as [[w' pkt'] ok1].
    specialize (IH w' pkt' (if Match.Op m =? AND then ok && ok1
                            else if Match.Op m =? OR then ok || ok1 else ok)).
    destruct (match_in ms w' pkt' _) as [[[w'' pkt''] ok''] log].
    destruct IH as (Hp & Hc & Hu & Hl & Hall & Ho). cbn [fst snd] in *.
    unfold handed_on in *. cbn [fmap list_fmap returned]. rewrite last_cons.
    unfold calls, unprinted, out_calls in *. rewrite !filter_cons. cbn.
    rewrite !decide_True by reflexivity. rewrite Hc, Hu, Hl, Ho.
    repeat split; [| constructor; [reflexivity | exact Hall]].
    rewrite Hp. destruct (last (returned <$> chain ms w' pkt')); reflexivity.
Qed.

(** The actions: only action calls, one per action; what they leave is
    what the last one returned. *)
Lemma actions_pass (acts : list (Action.t W)) :
  forall (w : W) (pkt1 : option Msg) (ok : bool) (resultpkt : option Msg),
    (actions acts w pkt1 ok resultpkt).1.2
      = default resultpkt (last (snd <$> action_calls (actions acts w pkt1 ok resultpkt).2)) /\
    calls (actions acts w pkt1 ok resultpkt).2 = (actions acts w pkt1 ok resultpkt).2 /\
    unprinted (actions acts w pkt1 ok resultpkt).2 = (actions acts w pkt1 ok resultpkt).2 /\
    length (actions acts w pkt1 ok resultpkt).2 = length acts /\
    Forall (fun e => is_action_call e = true) (actions acts w pkt1 ok resultpkt).2 /\
    out_calls (actions acts w pkt1 ok resultpkt).2 = [].
Proof.
  induction acts as [|a acts IH]; intros w pkt1 ok resultpkt; cbn [actions].
  - repeat split. constructor.
  - destruct (Action.Func a w pkt1 ok) as [w' res].
    specialize (IH w' pkt1 ok res).
    destruct (actions acts w' pkt1 ok res) as [[w'' resultpkt'] log].
    destruct IH as (Hp & Hc & Hu & Hl & Hall & Ho). cbn [fst snd] in *.
    unfold calls, unprinted, out_calls, action_calls in *. rewrite !filter_cons. cbn.
    rewrite !decide_True by reflexivity. rewrite Hc, Hu, Hl, Ho, last_cons.
    repeat split; [| constructor; [reflexivity | exact Hall]].
    rewrite Hp. destruct (last _); reflexivity.
Qed.

(** The [OUT] pass: only [OUT] calls, one per stage, each given what the
    one before returned; no [IN] call and no action call. *)
Lemma match_out_pass (ms : list (Match.t W)) :
  forall (w : W) (pkt1 : option Msg),
    (match_out ms w pkt1).1.2
      = default pkt1 (last ((fun c => c.1.2) <$> out_calls (match_out ms w pkt1).2)) /\
    linked pkt1 (out_calls (match_out ms w pkt1).2) /\
    calls (match_out ms w pkt1).2 = (match_out ms w pkt1).2 /\
    unprinted (match_out ms w pkt1).2 = (match_out ms w pkt1).2 /\
    length (match_out ms w pkt1).2 = length ms /\
    Forall (fun e => is_out_call e = true) (match_out ms w pkt1).2.
Proof.
  induction ms as [|m ms IH]; intros w pkt1; cbn [match_out].
  - repeat split. constructor.
  - destruct (Match.Func m w pkt1 OUT) as [[w' pkt1'] ok1].
    specialize (IH w' pkt1'). destruct (match_out ms w' pkt1') as [[w'' pkt1''] log].
    destruct IH as (Hp & Hlk & Hc & Hu & Hl & Hall). cbn [fst snd] in *.
    unfold calls, unprinted, out_calls in *. rewrite !filter_cons. cbn.
    rewrite !decide_True by reflexivity. rewrite Hc, Hu, Hl, last_cons.
    repeat split; [| exact Hlk | constructor; [reflexivity | exact Hall]].
    rewrite Hp. destruct (last _); reflexivity.
Qed.

End PassFacts.

Section PipelineFacts.
Import Funkensturm Traces.
Context {W : Type}.
Variable Pack : Msg -> option (list Byte.byte) * bool.
Variable f : Funkensturm W.

Lemma no_calls_no_out_calls (l : list event) : calls l = [] -> out_calls l = [].
Proof.
  unfold calls, out_calls. induction l as [|e l IH]; [reflexivity |].
  rewrite filter_cons. destruct e; cbn;
    first [ rewrite decide_True by reflexivity; discriminate
          | rewrite decide_False by discriminate; exact IH ].
Qed.

(** The world, the packet and the calls of the passes are the same with
    and without [verbose]. *)
Lemma passes_unprinted (v : bool) (w : W) (pkt : option Msg) :
  (passes v f w pkt).1 = (passes false f w pkt).1 /\
  unprinted (passes v f w pkt).2 = (passes false f w pkt).2.
Proof.
  unfold passes.
  pose proof (match_in_pass (Matches f) w pkt true) as (_ & _ & Hu1 & _).
  destruct (match_in (Matches f) w pkt true) as [[[w1 pkt1] ok] log1].
  pose proof (actions_pass (Actions f) w1 pkt1 ok None) as (_ & _ & Hu3 & _).
  destruct (actions (Actions f) w1 pkt1 ok None) as [[w2 resultpkt] log3].
  pose proof (match_out_pass (Matches f) w2 resultpkt) as (_ & _ & _ & Hu5 & _).
  destruct (match_out (Matches f) w2 resultpkt) as [[w3 pkt2] log5].
  destruct (verbose_print v pkt1 "MODIFIED INCOMING") as (_ & Hu2 & _).
  destruct (verbose_print v resultpkt "ORIGINAL OUTGOING") as (_ & Hu4 & _).
  cbn [fst snd] in *. split; [reflexivity |].
  rewrite !unprinted_app, Hu1, Hu2, Hu3, Hu4, Hu5. reflexivity.
Qed.

(** X6.  The [verbose] flag changes what is printed and nothing else:
    with the prints dropped from the trace, [doFunkensturm] and [reply] do
    the same with and without it: the same world, the same bytes and
    error returned, the same calls, the same write, the same panic. *)
Theorem verbose_only_prints (w : W) (pkt : option Msg) :
  match doFunkensturm Pack true f w pkt with
  | Ok (w', log, ret) => doFunkensturm Pack false f w pkt = Ok (w', unprinted log, ret)
  | Panic why => doFunkensturm Pack false f w pkt = Panic why
  end /\
  match reply Pack true f w pkt with
  | Ok (w', log) => reply Pack false f w pkt = Ok (w', unprinted log)
  | Panic why => reply Pack false f w pkt = Panic why
  end.
Proof.
  assert (Hdo : match doFunkensturm Pack true f w pkt with
                | Ok (w', log, ret) =>
                    doFunkensturm Pack false f w pkt = Ok (w', unprinted log, ret)
                | Panic why => doFunkensturm Pack false f w pkt = Panic why
                end).
  { unfold doFunkensturm. destruct pkt as [m|]; [| reflexivity].
    destruct (Response (hdr m)); [reflexivity |].
    destruct (passes_unprinted true w (Some m)) as [Hw Hu].
    destruct (passes true f w (Some m)) as [[w3 pkt2] log].
    destruct (passes false f w (Some m)) as [[w3' pkt2'] log'].
    cbn [fst snd] in Hw, Hu. injection Hw as <- <-. subst log'.
    destruct (verbose_print true (Some m) "ORIGINAL INCOMING") as (_ & Hu0 & _).
    destruct pkt2 as [p2|].
    - destruct (verbose_prints true (Some p2) "MODIFIED OUTGOING" [Stdout rule])
        as (_ & Hu6 & _); [repeat constructor |].
      destruct (Pack p2) as [out ok1]. cbn [when_verbose] in *.
      destruct ok1; cbn [negb]; do 2 rewrite unprinted_app; rewrite Hu0, Hu6; reflexivity.
    - cbn [when_verbose] in *. rewrite !unprinted_app, Hu0. reflexivity. }
  split; [exact Hdo |]. unfold reply.
  destruct (doFunkensturm Pack true f w pkt) as [[[w' log] [out err]]|why];
    rewrite Hdo; cbn; [| reflexivity].
  destruct err as [e|]; [rewrite unprinted_app; reflexivity |].
  destruct out as [bytes|]; [rewrite unprinted_app; reflexivity | reflexivity].
Qed.

(** X9.  [doFunkensturm] writes nothing to the connection itself, and
    [reply] writes at most once: exactly the bytes [doFunkensturm]
    returned, when it returned bytes and no error, and nothing
    otherwise. *)
Theorem reply_writes_what_is_returned (verbose : bool) (w w' : W) (pkt : option Msg)
    (log : list event) :
  reply Pack verbose f w pkt = Ok (w', log) ->
  exists log0 ret,
    doFunkensturm Pack verbose f w pkt = Ok (w', log0, ret) /\
    writes log0 = [] /\
    writes log = match ret with
                 | (Some bytes, None) => [bytes]
                 | _ => []
                 end.
Proof.
  unfold reply. intros Hrun. apply bind_Ok in Hrun as ([[w1 log0] [out err]] & Hdo & Hrest).
  assert (Hw0 : writes log0 = []).
  { destruct pkt as [m|]; [| discriminate Hdo].
    destruct (Response (hdr m)) eqn:Hq.
    - unfold doFunkensturm in Hdo. rewrite Hq in Hdo. injection Hdo as <- <- <- <-.
      apply (verboseprint_prints verbose (Some m) "ORIGINAL INCOMING").
    - destruct (doFunkensturm_trace Pack verbose f w m Hq)
        as (w2 & log6 & ret & Hrun & (_ & _ & Hw6 & _) & _).
      rewrite Hdo in Hrun. injection Hrun as <- -> <-.
      destruct (passes_trace verbose f w (Some m)) as (_ & _ & _ & Hw).
      destruct (verboseprint_prints verbose (Some m) "ORIGINAL INCOMING") as (_ & _ & Hw0 & _).
      rewrite !writes_app, Hw0, Hw, Hw6. reflexivity. }
  exists log0, (out, err). cbn in Hrest.
  destruct err as [e|].
  - injection Hrest as <- <-. split; [exact Hdo |]. split; [exact Hw0 |].
    rewrite writes_app, Hw0. destruct out; reflexivity.
  - destruct out as [bytes|]; injection Hrest as <- <-;
      (split; [exact Hdo |]); (split; [exact Hw0 |]);
      rewrite ?writes_app, ?Hw0; reflexivity.
Qed.

End PipelineFacts.

(** ** The xfrprx handler and the test handler *)

Section HandlerFacts.
Context {N : Type}.
Variable handleNotify : state N -> option Msg -> state N * option string.
Variable handleXfrOut : state N -> option Msg -> state N * option string.

(** X11.  [handle] adds nothing of its own to what the two handlers leave:
    the zone's name, records and size and the rest of the process are
    theirs.  It only ever clears the [correct] flag: the flag is set
    afterwards only when the handlers left it set on a zone without a
    name. *)
Theorem handle_only_clears_the_flag (st st' : state N) (m : Msg) :
  Response (hdr m) = false ->
  handle handleNotify handleXfrOut st (Some m) = Ok st' ->
  let after_notify := handleNotify st (Some m) in
  let left := (handleXfrOut (print_err after_notify.1 after_notify.2) (Some m)).1 in
  name (Zone st') = name (Zone left) /\
  rrs (Zone st') = rrs (Zone left) /\
  size (Zone st') = size (Zone left) /\
  net st' = net left /\
  (correct (Zone st') = true -> correct (Zone left) = true /\ name (Zone left) = "").
Proof.
  intros Hq. unfold handle. rewrite Hq. cbn zeta.
  destruct (handleNotify st (Some m)) as [st1 err1]. cbn [fst snd].
  destruct (handleXfrOut (print_err st1 err1) (Some m)) as [st2 err2]. cbn [fst snd].
  rewrite print_err_Zone.
  destruct (String.eqb_spec (name (Zone st2)) "") as [E|Hne]; cbn [negb];
    intros [= <-]; cbn; rewrite ?print_err_Zone;
    (repeat split; try (destruct err2; reflexivity)); try discriminate; auto.
Qed.

End HandlerFacts.

(** X12.  The handler of server_test.go answers a query with exactly one
    message, [createpkg] of the query's id: a response that carries that
    id.  Given its own answer it writes nothing, as for any message
    [createpkg] builds: two such handlers do not answer each other. *)
Theorem test_handler_answers_once (c : list Msg) (q : Msg) :
  Response (hdr q) = false ->
  exists a,
    ServerTest.handle c (Some q) = Ok (c ++ [a]) /\
    a = ServerTest.createpkg (Id (hdr q)) true /\
    Id (hdr a) = Id (hdr q) /\
    Response (hdr a) = true /\
    ServerTest.handle (c ++ [a]) (Some a) = Ok (c ++ [a]) /\
    (forall id tcp c', ServerTest.handle c' (Some (ServerTest.createpkg id tcp)) = Ok c').
Proof.
  intros Hq. exists (ServerTest.createpkg (Id (hdr q)) true).
  unfold ServerTest.handle. rewrite Hq. repeat split.
Qed.

(** The properties on concrete runs. *)

Lemma reply_writes_what_is_returned_witness :
  Funkensturm.reply Sample.pack_id false Sample.proxy 0%nat (Some (Sample.query 3))
    = Ok (1%nat, Sample2.reply_log) /\
  exists log0 ret,
    Funkensturm.doFunkensturm Sample.pack_id false Sample.proxy 0%nat (Some (Sample.query 3))
      = Ok (1%nat, log0, ret) /\
    Funkensturm.writes log0 = [] /\
    Funkensturm.writes Sample2.reply_log
      = match ret with
        | (Some bytes, None) => [bytes]
        | _ => []
        end.
Proof.
  split; [vm_compute; reflexivity |].
  apply (reply_writes_what_is_returned Sample.pack_id Sample.proxy false 0%nat 1%nat
           (Some (Sample.query 3)) Sample2.reply_log).
  vm_compute. reflexivity.
Defined.

Lemma handle_only_clears_the_flag_witness :
  Response (hdr (Sample.notify 5)) = false /\
  handle Sample.handleNotify_engine Sample.handleXfrOut_none
         (Sample.process Sample.good_stream) (Some (Sample.notify 5))
    = Ok Sample.after_good /\
  name (Zone Sample.after_good) = name Sample.transferred /\
  rrs (Zone Sample.after_good) = rrs Sample.transferred /\
  size (Zone Sample.after_good) = size Sample.transferred /\
  correct (Zone Sample.after_good) = false.
Proof.
  assert (Hrun : handle Sample.handleNotify_engine Sample.handleXfrOut_none
                   (Sample.process Sample.good_stream) (Some (Sample.notify 5))
                 = Ok Sample.after_good) by (vm_compute; reflexivity).
  pose proof (handle_only_clears_the_flag
                Sample.handleNotify_engine Sample.handleXfrOut_none
                (Sample.process Sample.good_stream) Sample.after_good (Sample.notify 5)
                eq_refl Hrun) as (Hn & Hr & Hs & _ & _).
  split; [reflexivity |]. split; [exact Hrun |].
  split; [exact Hn |]. split; [exact Hr |]. split; [exact Hs |]. reflexivity.
Defined.

Lemma test_handler_answers_once_witness :
  Response (hdr (Sample.query 3)) = false /\
  exists a,
    ServerTest.handle [] (Some (Sample.query 3)) = Ok ([] ++ [a]) /\
    a = ServerTest.createpkg (Id (hdr (Sample.query 3))) true /\
    Id (hdr a) = Id (hdr (Sample.query 3)) /\
    Response (hdr a) = true /\
    ServerTest.handle ([] ++ [a]) (Some a) = Ok ([] ++ [a]) /\
    (forall id tcp c', ServerTest.handle c' (Some (ServerTest.createpkg id tcp)) = Ok c').
Proof.
  split; [reflexivity |].
  apply (test_handler_answers_once [] (Sample.query 3)). reflexivity.
Defined.

(* ===================================================================== *)
(** * Part IV.  The proxy's passes as applications of the stage functions  *)
(* ===================================================================== *)

Section AppliedFacts.
Import Funkensturm Traces Applied.
Context {W : Type}.
Variable Pack : Msg -> option (list Byte.byte) * bool.
Variable f : Funkensturm W.

(** Reading the calls off the events of applications. *)
Lemma match_events_IN (l : list (option Msg * option Msg * bool)) :
  in_calls (match_event IN <$> l) = l /\
  out_calls (match_event IN <$> l) = [] /\
  action_calls (match_event IN <$> l) = [] /\
  calls (match_event IN <$> l) = match_event IN <$> l.
Proof.
  induction l as [|[[p p'] ok1] l (IH1 & IH2 & IH3 & IH4)]; [repeat split |].
  unfold in_calls, out_calls, action_calls, calls in *. cbn [fmap list_fmap].
  rewrite filter_cons. cbn. rewrite decide_True by reflexivity.
  rewrite IH1, IH2, IH3, IH4. repeat split.
Qed.

Lemma match_events_OUT (l : list (option Msg * option Msg * bool)) :
  in_calls (match_event OUT <$> l) = [] /\
  out_calls (match_event OUT <$> l) = l /\
  action_calls (match_event OUT <$> l) = [] /\
  calls (match_event OUT <$> l) = match_event OUT <$> l.
Proof.
  induction l as [|[[p p'] ok1] l (IH1 & IH2 & IH3 & IH4)]; [repeat split |].
  unfold in_calls, out_calls, action_calls, calls in *. cbn [fmap list_fmap].
  rewrite filter_cons. cbn. rewrite decide_True by reflexivity.
  rewrite IH1, IH2, IH3, IH4. repeat split.
Qed.

Lemma action_events (l : list (option Msg * bool * option Msg)) :
  in_calls (action_event <$> l) = [] /\
  out_calls (action_event <$> l) = [] /\
  action_calls (action_event <$> l) = l /\
  calls (action_event <$> l) = action_event <$> l.
Proof.
  induction l as [|[[p ok] res] l (IH1 & IH2 & IH3 & IH4)]; [repeat split |].
  unfold in_calls, out_calls, action_calls, calls in *. cbn [fmap list_fmap].
  rewrite filter_cons. cbn. rewrite decide_True by reflexivity.
  rewrite IH1, IH2, IH3, IH4. repeat split.
Qed.

(** The loops of the embedding apply the stage functions: what a loop
    leaves and the calls it makes are the applications, one after the
    other. *)
Lemma match_in_applied (ms : list (Match.t W)) :
  forall (w : W) (pkt : option Msg) (ok : bool),
    (match_in ms w pkt ok).1.1 = through IN ms w pkt /\
    (match_in ms w pkt ok).2 = match_event IN <$> stage_applications IN ms w pkt.
Proof.
  induction ms as [|m ms IH]; intros w pkt ok;
    cbn [match_in stage_applications]; [split; reflexivity |].
  unfold through. cbn [fold_left fst snd]. fold (through IN ms).
  destruct (Match.Func m w pkt IN) as [[w' pkt'] ok1]. cbn [fst snd].
  specialize (IH w' pkt' (if Match.Op m =? AND then ok && ok1
                          else if Match.Op m =? OR then ok || ok1 else ok)).
  destruct (match_in ms w' pkt' _) as [[[w'' pkt''] ok''] log].
  destruct IH as [Hw Hl]. cbn [fst snd] in *. unfold through in Hw.
  rewrite Hw, Hl. split; reflexivity.
Qed.

Lemma actions_applied (acts : list (Action.t W)) :
  forall (w : W) (pkt1 : option Msg) (ok : bool) (resultpkt : option Msg),
    (actions acts w pkt1 ok resultpkt).1
      = fold_left (fun st a => Action.Func a st.1 pkt1 ok) acts (w, resultpkt) /\
    (actions acts w pkt1 ok resultpkt).2
      = action_event <$> action_applications acts w pkt1 ok.
Proof.
  induction acts as [|a acts IH]; intros w pkt1 ok resultpkt;
    cbn [actions action_applications fold_left fst snd]; [split; reflexivity |].
  destruct (Action.Func a w pkt1 ok) as [w' res]. cbn [fst snd].
  specialize (IH w' pkt1 ok res).
  destruct (actions acts w' pkt1 ok res) as [[w'' resultpkt'] log].
  destruct IH as [Hw Hl]. cbn [fst snd] in *. rewrite Hw, Hl. split; reflexivity.
Qed.

Lemma match_out_applied (ms : list (Match.t W)) :
  forall (w : W) (pkt1 : option Msg),
    (match_out ms w pkt1).1 = through OUT ms w pkt1 /\
    (match_out ms w pkt1).2 = match_event OUT <$> stage_applications OUT ms w pkt1.
Proof.
  induction ms as [|m ms IH]; intros w pkt1;
    cbn [match_out stage_applications]; [split; reflexivity |].
  unfold through. cbn [fold_left fst snd].
  destruct (Match.Func m w pkt1 OUT) as [[w' pkt1'] ok1]. cbn [fst snd].
  specialize (IH w' pkt1'). destruct (match_out ms w' pkt1') as [[w'' pkt1''] log].
  destruct IH as [Hw Hl]. cbn [fst snd] in *. unfold through in Hw.
  rewrite Hw, Hl. split; reflexivity.
Qed.

(** The chain of the [IN] pass is its applications. *)
Lemma chain_applied (ms : list (Match.t W)) :
  forall (w : W) (pkt : option Msg),
    map call_of (chain ms w pkt) = stage_applications IN ms w pkt.
Proof.
  induction ms as [|m ms IH]; intros w pkt; cbn [chain stage_applications]; [reflexivity |].
  destruct (Match.Func m w pkt IN) as [[w' pkt'] ok1]. cbn. rewrite IH. reflexivity.
Qed.

(** In a pass each stage is applied to the packet the one before
    returned, and the pass leaves what the last one returned. *)
Lemma stage_applications_linked (d : Z) (ms : list (Match.t W)) :
  forall (w : W) (pkt : option Msg),
    linked pkt (stage_applications d ms w pkt) /\
    length (stage_applications d ms w pkt) = length ms /\
    (through d ms w pkt).2
      = default pkt (last ((fun c => c.1.2) <$> stage_applications d ms w pkt)).
Proof.
  induction ms as [|m ms IH]; intros w pkt; cbn [stage_applications]; [repeat split |].
  unfold through. cbn [fold_left fst snd].
  destruct (Match.Func m w pkt d) as [[w' pkt'] ok1]. cbn [fst snd].
  destruct (IH w' pkt') as (Hlk & Hlen & Hp). unfold through in Hp.
  cbn [linked length fmap list_fmap fst snd]. rewrite last_cons, Hlen, Hp.
  repeat split; [exact Hlk |]. destruct (last _); reflexivity.
Qed.

(** Every action is applied to the same packet and verdict; the packet
    the last one returned is what the actions leave. *)
Lemma action_applications_same (acts : list (Action.t W)) :
  forall (w : W) (pkt1 : option Msg) (ok : bool) (resultpkt : option Msg),
    Forall2 (fun a c => exists w0, c = (pkt1, ok, (Action.Func a w0 pkt1 ok).2))
            acts (action_applications acts w pkt1 ok) /\
    Forall (fun c => c.1.1 = pkt1 /\ c.1.2 = ok) (action_applications acts w pkt1 ok) /\
    length (action_applications acts w pkt1 ok) = length acts /\
    (fold_left (fun st a => Action.Func a st.1 pkt1 ok) acts (w, resultpkt)).2
      = default resultpkt (last (snd <$> action_applications acts w pkt1 ok)).
Proof.
  induction acts as [|a acts IH]; intros w pkt1 ok resultpkt;
    cbn [action_applications fold_left fst snd]; [repeat split; constructor |].
  destruct (IH (Action.Func a w pkt1 ok).1 pkt1 ok (Action.Func a w pkt1 ok).2)
    as (H2 & Hall & Hlen & Hp).
  rewrite <- surjective_pairing in Hp.
  cbn [length fmap list_fmap snd]. rewrite last_cons, Hlen, Hp.
  repeat split.
  - constructor; [exists w; reflexivity | exact H2].
  - constructor; [split; reflexivity | exact Hall].
  - destruct (last _); reflexivity.
Qed.

(** The three passes: what they leave is what the applications leave, and
    their trace is the applications with the prints between them. *)
Lemma passes_applied (v : bool) (w : W) (pkt : option Msg) :
  (passes v f w pkt).1 = after_out f w pkt /\
  (passes v f w pkt).2
    = (match_event IN <$> applied_in f w pkt)
      ++ when_verbose v (verboseprint (after_in f w pkt).2 "MODIFIED INCOMING")
      ++ (action_event <$> applied_actions f w pkt)
      ++ when_verbose v (verboseprint (after_actions f w pkt).2 "ORIGINAL OUTGOING")
      ++ (match_event OUT <$> applied_out f w pkt).
Proof.
  unfold passes, after_out, applied_out, applied_actions, after_actions, acted,
    applied_in, after_in, verdict.
  pose proof (match_in_applied (Matches f) w pkt true) as [Hw1 Hl1].
  pose proof (match_in_chain (Matches f) w pkt true) as (_ & Hv & _).
  destruct (match_in (Matches f) w pkt true) as [[[w1 pkt1] ok] log1].
  cbn [fst snd] in Hw1, Hl1, Hv. rewrite <- Hv, <- Hw1, <- Hl1. cbn [fst snd].
  pose proof (actions_applied (Actions f) w1 pkt1 ok None) as [Hw3 Hl3].
  destruct (actions (Actions f) w1 pkt1 ok None) as [[w2 resultpkt] log3].
  cbn [fst snd] in Hw3, Hl3. rewrite <- Hw3, <- Hl3. cbn [fst snd].
  pose proof (match_out_applied (Matches f) w2 resultpkt) as [Hw5 Hl5].
  destruct (match_out (Matches f) w2 resultpkt) as [[w3 pkt2] log5].
  cbn [fst snd] in Hw5, Hl5. rewrite <- Hw5, <- Hl5. split; reflexivity.
Qed.

(** [doFunkensturm] on a message that is no response: the world it leaves
    and what it returns are those of the applications, and the calls of its
    trace are the applications. *)
Lemma doFunkensturm_applied (v : bool) (w : W) (m : Msg) :
  Response (hdr m) = false ->
  exists log,
    doFunkensturm Pack v f w (Some m)
      = Ok ((after_out f w (Some m)).1, log,
            returned_for Pack (after_out f w (Some m)).2) /\
    calls log
      = (match_event IN <$> applied_in f w (Some m))
        ++ (action_event <$> applied_actions f w (Some m))
        ++ (match_event OUT <$> applied_out f w (Some m)) /\
    in_calls log = applied_in f w (Some m) /\
    action_calls log = applied_actions f w (Some m) /\
    out_calls log = applied_out f w (Some m) /\
    writes log = [].
Proof.
  intros Hq.
  destruct (doFunkensturm_trace Pack v f w m Hq)
    as (w' & log6 & ret & Hrun & (Hi6 & Ha6 & Hw6 & Hc6) & Hw' & Hret).
  pose proof (no_calls_no_out_calls log6 Hc6) as Ho6.
  destruct (passes_trace v f w (Some m)) as (_ & _ & _ & Hwp).
  destruct (passes_applied v w (Some m)) as [Hp Hl].
  rewrite Hp in Hw', Hret. rewrite Hl in Hrun, Hwp. clear Hl Hp.
  destruct (match_events_IN (applied_in f w (Some m))) as (Hi1 & Ho1 & Ha1 & Hc1).
  destruct (action_events (applied_actions f w (Some m))) as (Hi3 & Ho3 & Ha3 & Hc3).
  destruct (match_events_OUT (applied_out f w (Some m))) as (Hi5 & Ho5 & Ha5 & Hc5).
  destruct (verboseprint_prints v (Some m) "ORIGINAL INCOMING") as (Hi0 & Ha0 & Hw0 & Hc0).
  destruct (verbose_print v (Some m) "ORIGINAL INCOMING") as (Ho0 & _).
  destruct (verboseprint_prints v (after_in f w (Some m)).2 "MODIFIED INCOMING")
    as (Hi2 & Ha2 & _ & Hc2).
  destruct (verbose_print v (after_in f w (Some m)).2 "MODIFIED INCOMING") as (Ho2 & _).
  destruct (verboseprint_prints v (after_actions f w (Some m)).2 "ORIGINAL OUTGOING")
    as (Hi4 & Ha4 & _ & Hc4).
  destruct (verbose_print v (after_actions f w (Some m)).2 "ORIGINAL OUTGOING") as (Ho4 & _).
  eexists. split.
  - rewrite Hrun. subst w'. f_equal. f_equal. unfold returned_for.
    destruct ((after_out f w (Some m)).2); exact Hret.
  - rewrite !calls_app, !in_calls_app, !action_calls_app, !out_calls_app.
    rewrite Hc0, Hc1, Hc2, Hc3, Hc4, Hc5, Hc6, Hi0, Hi1, Hi2, Hi3, Hi4, Hi5, Hi6,
      Ha0, Ha1, Ha2, Ha3, Ha4, Ha5, Ha6, Ho0, Ho1, Ho2, Ho3, Ho4, Ho5, Ho6.
    rewrite !app_nil_r. cbn [app]. repeat split.
    rewrite writes_app, Hw0, writes_app, Hwp, Hw6. reflexivity.
Qed.

(** C8.  For a message that is no response, [doFunkensturm] applies the
    stages with [IN] as a chain, each to the packet the stage before
    returned and the first to the incoming one, and then applies the
    function of every action to one and the same verdict: the fold from
    [true], left to right, of each stage's result under its operator, [AND]
    as conjunction and [OR] as disjunction.  The world the run leaves and
    the pair it returns are those of these applications, and the calls of
    its trace are these applications. *)
Theorem actions_get_the_folded_verdict (verbose : bool) (w : W) (m : Msg) :
  Response (hdr m) = false ->
  exists log,
    doFunkensturm Pack verbose f w (Some m)
      = Ok ((after_out f w (Some m)).1, log,
            returned_for Pack (after_out f w (Some m)).2) /\
    in_calls log = map call_of (chain (Matches f) w (Some m)) /\
    linked (Some m) (in_calls log) /\
    action_calls log
      = action_applications (Actions f) (after_in f w (Some m)).1 (after_in f w (Some m)).2
                            (verdict (chain (Matches f) w (Some m))) /\
    Forall2 (fun a c => exists w0,
               c = ((after_in f w (Some m)).2, verdict (chain (Matches f) w (Some m)),
                    (Action.Func a w0 (after_in f w (Some m)).2
                                 (verdict (chain (Matches f) w (Some m)))).2))
            (Actions f) (action_calls log) /\
    length (action_calls log) = length (Actions f) /\
    Forall (fun c => c.1.2 = verdict (chain (Matches f) w (Some m))) (action_calls log).
Proof.
  intros Hq.
  destruct (doFunkensturm_applied verbose w m Hq) as (log & Hrun & _ & Hin & Hact & _).
  exists log. split; [exact Hrun |].
  rewrite Hin, Hact. unfold applied_in, applied_actions.
  destruct (action_applications_same (Actions f) (after_in f w (Some m)).1
              (after_in f w (Some m)).2 (verdict (chain (Matches f) w (Some m))) None)
    as (H2 & Hall & Hlen & _).
  split; [symmetry; apply chain_applied |].
  split; [apply stage_applications_linked |].
  split; [reflexivity |]. split; [exact H2 |]. split; [exact Hlen |].
  eapply Forall_impl; [exact Hall |]. intros c [_ Hok]. exact Hok.
Qed.

(** X7.  For a message that is no response, [doFunkensturm] applies the
    stage functions in this order and no other: the function of every
    stage of [f.Matches] with [IN], each to the world and the packet the
    one before left; then the function of every action of [f.Actions];
    then the function of every stage once more with [OUT].  The world it
    leaves and the pair it returns are those of these applications. *)
Theorem stages_called_in_order (verbose : bool) (w : W) (m : Msg) :
  Response (hdr m) = false ->
  exists log,
    doFunkensturm Pack verbose f w (Some m)
      = Ok ((after_out f w (Some m)).1, log,
            returned_for Pack (after_out f w (Some m)).2) /\
    calls log
      = (match_event IN <$> stage_applications IN (Matches f) w (Some m))
        ++ (action_event <$>
              action_applications (Actions f) (after_in f w (Some m)).1
                (after_in f w (Some m)).2 (verdict (chain (Matches f) w (Some m))))
        ++ (match_event OUT <$>
              stage_applications OUT (Matches f) (after_actions f w (Some m)).1
                (after_actions f w (Some m)).2) /\
    length (stage_applications IN (Matches f) w (Some m)) = length (Matches f) /\
    length (action_applications (Actions f) (after_in f w (Some m)).1
              (after_in f w (Some m)).2 (verdict (chain (Matches f) w (Some m))))
      = length (Actions f) /\
    length (stage_applications OUT (Matches f) (after_actions f w (Some m)).1
              (after_actions f w (Some m)).2)
      = length (Matches f).
Proof.
  intros Hq.
  destruct (doFunkensturm_applied verbose w m Hq) as (log & Hrun & Hcalls & _).
  exists log. split; [exact Hrun |]. split; [exact Hcalls |].
  split; [apply stage_applications_linked |].
  split; [| apply stage_applications_linked].
  apply (action_applications_same (Actions f) _ _ _ None).
Qed.

(** X8.  For a message that is no response: the function of every action
    is applied to the same packet, the one the last [IN] stage returned
    (the incoming one when there is no stage), so actions are not chained;
    the [OUT] pass starts from the packet the last action returned ([nil]
    when there is none) and hands it from stage to stage; what is packed
    and returned is the packet the last [OUT] stage returned, and
    [(nil, nil)] when that packet is [nil]. *)
Theorem packets_through_the_passes (verbose : bool) (w : W) (m : Msg) :
  Response (hdr m) = false ->
  exists log,
    doFunkensturm Pack verbose f w (Some m)
      = Ok ((after_out f w (Some m)).1, log,
            returned_for Pack (after_out f w (Some m)).2) /\
    (after_in f w (Some m)).2 = handed_on (chain (Matches f) w (Some m)) (Some m) /\
    action_calls log
      = action_applications (Actions f) (after_in f w (Some m)).1 (after_in f w (Some m)).2
                            (verdict (chain (Matches f) w (Some m))) /\
    Forall (fun c => c.1.1 = (after_in f w (Some m)).2) (action_calls log) /\
    (after_actions f w (Some m)).2 = left_by (action_calls log) /\
    out_calls log
      = stage_applications OUT (Matches f) (after_actions f w (Some m)).1
                           (after_actions f w (Some m)).2 /\
    linked (after_actions f w (Some m)).2 (out_calls log) /\
    (after_out f w (Some m)).2
      = default (after_actions f w (Some m)).2 (last ((fun c => c.1.2) <$> out_calls log)).
Proof.
  intros Hq.
  destruct (doFunkensturm_applied verbose w m Hq) as (log & Hrun & _ & _ & Hact & Hout & _).
  exists log. split; [exact Hrun |].
  rewrite Hact, Hout. unfold applied_actions, applied_out.
  destruct (action_applications_same (Actions f) (after_in f w (Some m)).1
              (after_in f w (Some m)).2 (verdict (chain (Matches f) w (Some m))) None)
    as (_ & Hall & _ & Hleft).
  destruct (stage_applications_linked OUT (Matches f) (after_actions f w (Some m)).1
              (after_actions f w (Some m)).2) as (Hlk & _ & Hp).
  split.
  { pose proof (match_in_pass (Matches f) w (Some m) true) as (Hp1 & _).
    pose proof (match_in_applied (Matches f) w (Some m) true) as [Hw1 _].
    unfold after_in. rewrite <- Hw1. exact Hp1. }
  split; [reflexivity |].
  split; [eapply Forall_impl; [exact Hall |]; intros c [Hc _]; exact Hc |].
  split; [exact Hleft |]. split; [reflexivity |]. split; [exact Hlk |]. exact Hp.
Qed.

End AppliedFacts.

Section ShippedFacts.
Import Funkensturm Traces.
Context {W Conn : Type}.
Variable Pack : Msg -> option (list Byte.byte) * bool.
Variable qr : W -> list Conn.
Variable send_in : W -> option Msg -> Conn -> W.


End ShippedFacts.

(** The properties on concrete runs. *)

(** A query through [Sample.proxy]: [true AND true OR false AND false]
    folds to [false]. *)
Lemma actions_get_the_folded_verdict_witness :
  Response (hdr (Sample.query 3)) = false /\
  Funkensturm.verdict
    (Funkensturm.chain (Funkensturm.Matches Sample.proxy) 0%nat (Some (Sample.query 3)))
    = false /\
  exists log,
    Funkensturm.doFunkensturm Sample.pack_id false Sample.proxy 0%nat (Some (Sample.query 3))
      = Ok ((Applied.after_out Sample.proxy 0%nat (Some (Sample.query 3))).1, log,
            Applied.returned_for Sample.pack_id
              (Applied.after_out Sample.proxy 0%nat (Some (Sample.query 3))).2) /\
    Funkensturm.in_calls log
      = map Funkensturm.call_of
            (Funkensturm.chain (Funkensturm.Matches Sample.proxy) 0%nat (Some (Sample.query 3))) /\
    Funkensturm.linked (Some (Sample.query 3)) (Funkensturm.in_calls log) /\
    Funkensturm.action_calls log
      = Applied.action_applications (Funkensturm.Actions Sample.proxy)
          (Applied.after_in Sample.proxy 0%nat (Some (Sample.query 3))).1
          (Applied.after_in Sample.proxy 0%nat (Some (Sample.query 3))).2
          (Funkensturm.verdict
             (Funkensturm.chain (Funkensturm.Matches Sample.proxy) 0%nat
                (Some (Sample.query 3)))) /\
    Forall2 (fun a c => exists w0,
               c = ((Applied.after_in Sample.proxy 0%nat (Some (Sample.query 3))).2,
                    Funkensturm.verdict
                      (Funkensturm.chain (Funkensturm.Matches Sample.proxy) 0%nat
                         (Some (Sample.query 3))),
                    (Funkensturm.Action.Func a w0
                       (Applied.after_in Sample.proxy 0%nat (Some (Sample.query 3))).2
                       (Funkensturm.verdict
                          (Funkensturm.chain (Funkensturm.Matches Sample.proxy) 0%nat
                             (Some (Sample.query 3))))).2))
            (Funkensturm.Actions Sample.proxy) (Funkensturm.action_calls log) /\
    length (Funkensturm.action_calls log) = length (Funkensturm.Actions Sample.proxy) /\
    Forall (fun c => c.1.2 = Funkensturm.verdict
                               (Funkensturm.chain (Funkensturm.Matches Sample.proxy) 0%nat
                                  (Some (Sample.query 3))))
           (Funkensturm.action_calls log).
Proof.
  split; [reflexivity |]. split; [reflexivity |].
  apply (actions_get_the_folded_verdict Sample.pack_id Sample.proxy false 0%nat (Sample.query 3)).
  reflexivity.
Defined.

Lemma stages_called_in_order_witness :
  Response (hdr (Sample.query 3)) = false /\
  exists log,
    Funkensturm.doFunkensturm Sample.pack_id true Sample.proxy 0%nat (Some (Sample.query 3))
      = Ok (1%nat, log, (Some [Byte.x00; Byte.x01], None)) /\
    Funkensturm.calls log
      = [ Funkensturm.CallMatch Funkensturm.IN (Some (Sample.query 3)) (Some (Sample.query 3)) true;
          Funkensturm.CallMatch Funkensturm.IN (Some (Sample.query 3)) (Some (Sample.query 3)) false;
          Funkensturm.CallMatch Funkensturm.IN (Some (Sample.query 3)) (Some (Sample.query 3)) false;
          Funkensturm.CallAction (Some (Sample.query 3)) false (Some (Sample.query 3));
          Funkensturm.CallMatch Funkensturm.OUT (Some (Sample.query 3)) (Some (Sample.query 3)) true;
          Funkensturm.CallMatch Funkensturm.OUT (Some (Sample.query 3)) (Some (Sample.query 3)) true;
          Funkensturm.CallMatch Funkensturm.OUT (Some (Sample.query 3)) (Some (Sample.query 3)) true ].
Proof.
  split; [reflexivity |].
  destruct (stages_called_in_order Sample.pack_id Sample.proxy true 0%nat (Sample.query 3)
              eq_refl) as (log & Hrun & Hcalls & _).
  exists log. split; [exact Hrun | exact Hcalls].
Defined.

Lemma packets_through_the_passes_witness :
  Response (hdr (Sample.query 3)) = false /\
  exists log,
    Funkensturm.doFunkensturm Sample.pack_id false Sample.proxy 0%nat (Some (Sample.query 3))
      = Ok (1%nat, log, (Some [Byte.x00; Byte.x01], None)) /\
    Funkensturm.action_calls log = [(Some (Sample.query 3), false, Some (Sample.query 3))] /\
    Traces.out_calls log
      = [ (Some (Sample.query 3), Some (Sample.query 3), true);
          (Some (Sample.query 3), Some (Sample.query 3), true);
          (Some (Sample.query 3), Some (Sample.query 3), true) ].
Proof.
  split; [reflexivity |].
  destruct (packets_through_the_passes Sample.pack_id Sample.proxy false 0%nat (Sample.query 3)
              eq_refl) as (log & Hrun & _ & Hact & _ & _ & Hout & _).
  exists log. split; [exact Hrun |]. split; [exact Hact | exact Hout].
Defined.

